(** * LoRa two-way messaging node (ESP32 + SX1278): model of [main.cpp]

    The firmware is a polling loop that forwards lines typed on the USB
    serial port or the Bluetooth serial port to a LoRa transceiver, and
    prints radio packets back on both serial ports with a buzzer cue.

    The sketch is written against three libraries that are not part of the
    repository (the Arduino core, BluetoothSerial and LoRa).  Module [Hal]
    gives those calls an executable meaning on an explicit device state;
    every call also appends what an observer sees to a trace of events.
    The functions of [main.cpp] follow, statement for statement, in the
    monad [Prog] of module [Hal].

    What [Hal] takes for granted about the libraries:
    - a receive buffer holds the bytes that reach a read before it times
      out, so time itself is not modelled;
    - an Arduino [String] is the sequence of its bytes;
    - the radio hands over received packets one per [parsePacket], oldest
      first, and puts on the air what was printed between [beginPacket] and
      [endPacket], up to the 255 bytes a packet can hold: what is printed
      beyond them is left out;
    - [delay] takes an unsigned 32-bit number of milliseconds, so an [int]
      given to it is taken modulo 2^32;
    - printing on a port always succeeds. *)

From Stdlib Require Import ZArith List String Ascii Bool Lia.
Import ListNotations.

Local Open Scope string_scope.
Local Open Scope Z_scope.
Local Open Scope list_scope.

(* ===================================================================== *)
(** ** The board and its libraries *)
(* ===================================================================== *)

Module Hal.

(** The two line-oriented ports: [Serial] (UART over USB) and [SerialBT]. *)
Inductive Stream := Serial | SerialBT.

Definition HIGH : bool := true.
Definition LOW : bool := false.

Inductive Mode := INPUT | OUTPUT.

(** What the outside world observes, one constructor per library call with
    an effect. *)
Inductive Event :=
| SerialBegin (baud : Z)
| BluetoothBegin (name : string)
| PinMode (pin : Z) (mode : Mode)
| DigitalWrite (pin : Z) (level : bool)
| Delay (ms : Z)
| Println (port : Stream) (line : string)
| LoRaSetPins (ss rst dio0 : Z)
| LoRaBegin (frequency : Z) (ok : bool)
| LoRaTransmit (payload : string).

(** State of the peripherals.  There is no field for program variables:
    [main.cpp] has none that outlive a call. *)
Record Device := mkDevice {
  serial_rx : string;          (* bytes waiting on the USB UART *)
  bt_rx : string;              (* bytes waiting on the Bluetooth port *)
  gpio : Z -> bool;            (* level driven on each output pin *)
  lora_present : bool;         (* does the transceiver answer at begin() *)
  lora_inbox : list string;    (* packets received, not yet parsed *)
  lora_fifo : string;          (* unread bytes of the parsed packet *)
  lora_txbuf : string          (* packet being assembled *)
}.

(** A program reads and updates the device and emits events. *)
Definition Prog (A : Type) : Type := Device -> A * Device * list Event.

Definition ret {A} (a : A) : Prog A := fun d => (a, d, []).

Definition bind {A B} (m : Prog A) (f : A -> Prog B) : Prog B :=
  fun d =>
    match m d with
    | (a, d1, e1) =>
        match f a d1 with
        | (b, d2, e2) => (b, d2, e1 ++ e2)
        end
    end.

Definition result {A} (m : Prog A) (d : Device) : A := fst (fst (m d)).
Definition after {A} (m : Prog A) (d : Device) : Device := snd (fst (m d)).
Definition events {A} (m : Prog A) (d : Device) : list Event := snd (m d).

Definition gets {A} (f : Device -> A) : Prog A := fun d => (f d, d, []).
Definition modify (f : Device -> Device) : Prog unit := fun d => (tt, f d, []).
Definition emit (e : Event) : Prog unit := fun d => (tt, d, [e]).

Declare Scope prog_scope.
Delimit Scope prog_scope with prog.
Notation "x <- m ;; k" := (bind m (fun x => k))
  (at level 61, m at next level, right associativity) : prog_scope.
Notation "m ;; k" := (bind m (fun _ => k))
  (at level 61, right associativity) : prog_scope.
Local Open Scope prog_scope.

(** *** Field updates *)

Definition rx_of (s : Stream) (d : Device) : string :=
  match s with Serial => serial_rx d | SerialBT => bt_rx d end.

Definition set_rx (s : Stream) (v : string) (d : Device) : Device :=
  match s with
  | Serial => mkDevice v (bt_rx d) (gpio d) (lora_present d)
                       (lora_inbox d) (lora_fifo d) (lora_txbuf d)
  | SerialBT => mkDevice (serial_rx d) v (gpio d) (lora_present d)
                         (lora_inbox d) (lora_fifo d) (lora_txbuf d)
  end.

Definition set_gpio (pin : Z) (level : bool) (d : Device) : Device :=
  mkDevice (serial_rx d) (bt_rx d)
           (fun p => if p =? pin then level else gpio d p)
           (lora_present d) (lora_inbox d) (lora_fifo d) (lora_txbuf d).

Definition set_inbox (q : list string) (d : Device) : Device :=
  mkDevice (serial_rx d) (bt_rx d) (gpio d) (lora_present d)
           q (lora_fifo d) (lora_txbuf d).

Definition set_fifo (f : string) (d : Device) : Device :=
  mkDevice (serial_rx d) (bt_rx d) (gpio d) (lora_present d)
           (lora_inbox d) f (lora_txbuf d).

Definition set_txbuf (b : string) (d : Device) : Device :=
  mkDevice (serial_rx d) (bt_rx d) (gpio d) (lora_present d)
           (lora_inbox d) (lora_fifo d) b.

(** *** Arduino [String] *)

Definition strlen (s : string) : Z := Z.of_nat (String.length s).

(** C [isspace] in the default locale: space, \t, \n, \v, \f, \r. *)
Definition isspace (c : ascii) : bool :=
  let n := N_of_ascii c in
  (N.eqb n 32 || (N.leb 9 n && N.leb n 13))%N%bool.

Fixpoint ltrim (s : string) : string :=
  match s with
  | EmptyString => EmptyString
  | String c r => if isspace c then ltrim r else s
  end.

Fixpoint rtrim (s : string) : string :=
  match s with
  | EmptyString => EmptyString
  | String c r =>
      match rtrim r with
      | EmptyString => if isspace c then EmptyString else String c EmptyString
      | r' => String c r'
      end
  end.

(** [String::trim]: drop the whitespace before the first and after the
    last character that is not whitespace. *)
Definition trim (s : string) : string := rtrim (ltrim s).

(** The first [n] bytes of a string, or all of it. *)
Fixpoint take (n : nat) (s : string) : string :=
  match n, s with
  | S n', String c r => String c (take n' r)
  | _, _ => EmptyString
  end.

(** An [int] passed where [uint32_t] is expected. *)
Definition to_uint32 (x : Z) : Z := x mod 4294967296.

(** The cast [(char)x] of an [int]: the low eight bits. *)
Definition char_of_int (x : Z) : ascii := ascii_of_N (Z.to_N (x mod 256)).

Definition newline : ascii := ascii_of_N 10.

(** *** Core calls *)

Definition pinMode (pin : Z) (mode : Mode) : Prog unit :=
  emit (PinMode pin mode).

Definition digitalWrite (pin : Z) (level : bool) : Prog unit :=
  modify (set_gpio pin level) ;; emit (DigitalWrite pin level).

(** [delay(uint32_t ms)]. *)
Definition delay (ms : Z) : Prog unit := emit (Delay (to_uint32 ms)).

Definition Serial_begin (baud : Z) : Prog unit := emit (SerialBegin baud).

Definition SerialBT_begin (name : string) : Prog unit :=
  emit (BluetoothBegin name).

(** *** [Stream] calls, shared by [Serial] and [SerialBT] *)

(** [available()]: number of bytes waiting. *)
Definition available (s : Stream) : Prog Z := gets (fun d => strlen (rx_of s d)).

(** Split at the first terminator: the bytes before it, and the bytes after
    it.  Without a terminator everything is taken. *)
Fixpoint split_until (terminator : ascii) (buf : string) : string * string :=
  match buf with
  | EmptyString => (EmptyString, EmptyString)
  | String c rest =>
      if Ascii.eqb c terminator then (EmptyString, rest)
      else let r := split_until terminator rest in (String c (fst r), snd r)
  end.

(** [readStringUntil(t)]: take bytes up to the terminator, which is consumed
    and not returned; when the bytes run out first, the read times out and
    returns what it has.  [rx] holds the bytes that arrive in time. *)
Definition readStringUntil (s : Stream) (terminator : ascii) : Prog string :=
  buf <- gets (rx_of s) ;;
  modify (set_rx s (snd (split_until terminator buf))) ;;
  ret (fst (split_until terminator buf)).

Definition println (s : Stream) (line : string) : Prog unit :=
  emit (Println s line).

(** *** LoRa calls *)

Definition LoRa_setPins (ss rst dio0 : Z) : Prog unit :=
  emit (LoRaSetPins ss rst dio0).

Definition LoRa_begin (frequency : Z) : Prog bool :=
  ok <- gets lora_present ;;
  emit (LoRaBegin frequency ok) ;;
  ret ok.

(** Bytes a packet can hold. *)
Definition MAX_PKT_LENGTH : nat := 255.

Definition LoRa_beginPacket : Prog unit := modify (set_txbuf EmptyString).

(** [print(s)] goes through [write], which keeps the bytes that still fit
    in the packet and leaves out the others. *)
Definition LoRa_print (s : string) : Prog unit :=
  b <- gets lora_txbuf ;;
  modify (set_txbuf (b ++ take (MAX_PKT_LENGTH - String.length b) s)%string).

Definition LoRa_endPacket : Prog unit :=
  b <- gets lora_txbuf ;;
  emit (LoRaTransmit b) ;;
  modify (set_txbuf EmptyString).

(** [parsePacket()]: size of the next received packet, whose bytes become
    readable; 0 when there is none. *)
Definition LoRa_parsePacket : Prog Z :=
  q <- gets lora_inbox ;;
  match q with
  | [] => ret 0
  | p :: q' => modify (set_inbox q') ;; modify (set_fifo p) ;; ret (strlen p)
  end.

Definition LoRa_available : Prog Z := gets (fun d => strlen (lora_fifo d)).

(** [read()]: next byte of the packet, or -1. *)
Definition LoRa_read : Prog Z :=
  f <- gets lora_fifo ;;
  match f with
  | EmptyString => ret (-1)
  | String c r => modify (set_fifo r) ;; ret (Z.of_N (N_of_ascii c))
  end.

End Hal.

Import Hal.
Local Open Scope prog_scope.

(* ===================================================================== *)
(** ** main.cpp *)
(* ===================================================================== *)

Definition LORA_SS : Z := 5.
Definition LORA_RST : Z := 14.
Definition LORA_DIO0 : Z := 2.
Definition BUZZER_PIN : Z := 25.
Definition LORA_FREQUENCY : Z := 433000000.
Definition SERIAL_BAUD : Z := 115200.
Definition BT_DEVICE_NAME : string := "Sting_Node_2".

(** [printToAll]. *)
Definition printToAll (message : string) : Prog unit :=
  println Serial message ;;
  println SerialBT message.

(** [sendLoRaMessage]. *)
Definition sendLoRaMessage (message sourceTag : string) : Prog unit :=
  printToAll ((("[TX " ++ sourceTag) ++ "] ") ++ message)%string ;;
  LoRa_beginPacket ;;
  LoRa_print message ;;
  LoRa_endPacket.

(** Body of the [for] loop of [buzzerBeep], from index [i]; one unit of
    fuel per iteration. *)
Fixpoint buzzerBeep_from (fuel : nat) (i duration count : Z) : Prog unit :=
  match fuel with
  | O => ret tt
  | S fuel' =>
      if i <? count then
        digitalWrite BUZZER_PIN HIGH ;;
        delay duration ;;
        digitalWrite BUZZER_PIN LOW ;;
        (if i <? count - 1 then delay duration else ret tt) ;;
        buzzerBeep_from fuel' (i + 1) duration count
      else ret tt
  end.

(** [buzzerBeep]: the loop runs [count] times, so that much fuel is exact. *)
Definition buzzerBeep (duration count : Z) : Prog unit :=
  buzzerBeep_from (Z.to_nat count) 0 duration count.

(** [while (1) { delay(1000); }], cut after [fuel] iterations.  The loop has
    no exit: the answer is always [None], "still inside". *)
Fixpoint halt (fuel : nat) : Prog (option unit) :=
  match fuel with
  | O => ret None
  | S fuel' => delay 1000 ;; halt fuel'
  end.

(** [setup].  [Some tt] when it returns, [None] when it is still in the
    halt loop after [fuel] iterations. *)
Definition setup (fuel : nat) : Prog (option unit) :=
  Serial_begin SERIAL_BAUD ;;
  SerialBT_begin BT_DEVICE_NAME ;;
  pinMode BUZZER_PIN OUTPUT ;;
  digitalWrite BUZZER_PIN LOW ;;
  printToAll "LoRa Two-Way Chat" ;;
  printToAll "Initializing..." ;;
  printToAll ("Bluetooth device name: " ++ BT_DEVICE_NAME)%string ;;
  LoRa_setPins LORA_SS LORA_RST LORA_DIO0 ;;
  ok <- LoRa_begin LORA_FREQUENCY ;;
  fell_through <-
    (if negb ok then
       printToAll "ERROR: LoRa init failed!" ;;
       halt fuel
     else ret (Some tt)) ;;
  match fell_through with
  | None => ret None
  | Some _ =>
      printToAll "LoRa initialized successfully!" ;;
      printToAll "Ready to send and receive messages." ;;
      printToAll "Input channels: USB Serial + Bluetooth Serial" ;;
      printToAll "-----------------------------------" ;;
      buzzerBeep 100 1 ;;
      ret (Some tt)
  end.

(** [while (LoRa.available()) incoming += (char)LoRa.read();] *)
Fixpoint drain (fuel : nat) (incoming : string) : Prog string :=
  match fuel with
  | O => ret incoming
  | S fuel' =>
      n <- LoRa_available ;;
      if negb (n =? 0) then
        c <- LoRa_read ;;
        drain fuel' (incoming ++ String (char_of_int c) EmptyString)%string
      else ret incoming
  end.

(** [loop].  Each iteration of the [while] takes one byte from the packet,
    so [packetSize] is enough fuel for it. *)
Definition loop : Prog unit :=
  n <- available Serial ;;
  (if negb (n =? 0) then
     message <- readStringUntil Serial newline ;;
     let message := trim message in
     if strlen message >? 0 then sendLoRaMessage message "USB"
     else ret tt
   else ret tt) ;;
  n <- available SerialBT ;;
  (if negb (n =? 0) then
     message <- readStringUntil SerialBT newline ;;
     let message := trim message in
     if strlen message >? 0 then sendLoRaMessage message "BT"
     else ret tt
   else ret tt) ;;
  packetSize <- LoRa_parsePacket ;;
  if negb (packetSize =? 0) then
    incoming <- drain (Z.to_nat packetSize) EmptyString ;;
    printToAll ("[RX] " ++ incoming)%string ;;
    buzzerBeep 100 2
  else ret tt.

(** The Arduino entry point: [setup(); for (;;) loop();], cut after [n]
    iterations of [loop]. *)
Fixpoint loops (n : nat) : Prog unit :=
  match n with
  | O => ret tt
  | S n' => loop ;; loops n'
  end.

Definition firmware (fuel : nat) : Prog unit :=
  r <- setup fuel ;;
  match r with
  | None => ret tt
  | Some _ => loops fuel
  end.

(* ===================================================================== *)
(** ** Vocabulary of the statements *)
(* ===================================================================== *)

(** *** The three blocks of [loop] *)

(** Lines 69-76 and 78-85 of [loop] on their own: the same block for each
    port, with its tag. *)
Definition loop_port (port : Stream) (sourceTag : string) : Prog unit :=
  n <- available port ;;
  if negb (n =? 0) then
    message <- readStringUntil port newline ;;
    let message := trim message in
    if strlen message >? 0 then sendLoRaMessage message sourceTag
    else ret tt
  else ret tt.

(** Lines 87-98 of [loop] on their own. *)
Definition loop_radio : Prog unit :=
  packetSize <- LoRa_parsePacket ;;
  if negb (packetSize =? 0) then
    incoming <- drain (Z.to_nat packetSize) EmptyString ;;
    printToAll ("[RX] " ++ incoming)%string ;;
    buzzerBeep 100 2
  else ret tt.

(** *** Lines, echoes and traces *)

(** A line is blank when every character of it is whitespace. *)
Fixpoint whitespace_only (s : string) : bool :=
  match s with
  | EmptyString => true
  | String c r => isspace c && whitespace_only r
  end.

(** A line holds no line terminator. *)
Fixpoint no_newline (s : string) : bool :=
  match s with
  | EmptyString => true
  | String c r => negb (Ascii.eqb c newline) && no_newline r
  end.

(** The next line waiting in a receive buffer, trimmed, and what stays in
    the buffer once that line is taken. *)
Definition line_of (buf : string) : string := trim (fst (split_until newline buf)).
Definition rest_of (buf : string) : string := snd (split_until newline buf).

(** Tag that [loop] gives to each port. *)
Definition tag_of (port : Stream) : string :=
  match port with Serial => "USB" | SerialBT => "BT" end.

(** Text that goes before a forwarded line, per port. *)
Definition prefix_of (port : Stream) : string :=
  match port with Serial => "[TX USB] " | SerialBT => "[TX BT] " end.

(** A line printed on both ports. *)
Definition both (line : string) : list Event :=
  [Println Serial line; Println SerialBT line].

(** One buzzer pulse: the pin goes high, stays high, and goes low. *)
Definition pulse (ms : Z) : list Event :=
  [DigitalWrite BUZZER_PIN HIGH; Delay ms; DigitalWrite BUZZER_PIN LOW].

(** What fits in one packet. *)
Definition clip (s : string) : string := take MAX_PKT_LENGTH s.

(** What forwarding the line [L] from the port tagged [tag] looks like: the
    whole line is echoed, and what fits in a packet is sent. *)
Definition tx_echo (tag L : string) : list Event :=
  both ("[TX " ++ tag ++ "] " ++ L)%string ++ [LoRaTransmit (clip L)].

(** What receiving the payload [P] looks like. *)
Definition rx_echo (P : string) : list Event :=
  both ("[RX] " ++ P)%string ++ pulse 100 ++ [Delay 100] ++ pulse 100.

(** Lines printed on a port, payloads put on the air, and completed buzzer
    pulses (falling edges of the buzzer pin, from level [level]). *)
Fixpoint printed (port : Stream) (es : list Event) : list string :=
  match es with
  | [] => []
  | Println Serial l :: es' =>
      match port with Serial => l :: printed port es' | SerialBT => printed port es' end
  | Println SerialBT l :: es' =>
      match port with Serial => printed port es' | SerialBT => l :: printed port es' end
  | _ :: es' => printed port es'
  end.

Fixpoint radio_out (es : list Event) : list string :=
  match es with
  | [] => []
  | LoRaTransmit p :: es' => p :: radio_out es'
  | _ :: es' => radio_out es'
  end.

Fixpoint pulses_from (level : bool) (es : list Event) : nat :=
  match es with
  | [] => O
  | DigitalWrite pin v :: es' =>
      if pin =? BUZZER_PIN
      then ((if level && negb v then 1 else 0) + pulses_from v es')%nat
      else pulses_from level es'
  | _ :: es' => pulses_from level es'
  end.

Definition pulses (es : list Event) : nat := pulses_from LOW es.

(** Does the event drive the buzzer pin high? *)
Definition raises_buzzer (e : Event) : bool :=
  match e with
  | DigitalWrite pin level => (pin =? BUZZER_PIN) && level
  | _ => false
  end.

(** Traces in which the buzzer pin goes high only at the start of a pulse,
    whose last event brings it back low. *)
Inductive IdleLow : list Event -> Prop :=
| idle_nil : IdleLow []
| idle_pulse (ms : Z) (es : list Event) :
    IdleLow es -> IdleLow (pulse ms ++ es)
| idle_other (e : Event) (es : list Event) :
    raises_buzzer e = false -> IdleLow es -> IdleLow (e :: es).

(** Events of one port block of [loop], from the receive buffer alone. *)
Definition port_trace (tag buf : string) : list Event :=
  match buf with
  | EmptyString => []
  | _ => match line_of buf with
         | EmptyString => []
         | L => tx_echo tag L
         end
  end.

(** Events of the radio block of [loop], from the inbox alone. *)
Definition radio_trace (inbox : list string) : list Event :=
  match inbox with
  | [] => []
  | EmptyString :: _ => []
  | P :: _ => rx_echo P
  end.

(** *** Devices and traces that the proofs name *)

(** Device a port block leaves behind. *)
Definition port_after (port : Stream) (d : Device) : Device :=
  match rx_of port d with
  | EmptyString => d
  | buf => match line_of buf with
           | EmptyString => set_rx port (rest_of buf) d
           | _ => set_txbuf EmptyString (set_rx port (rest_of buf) d)
           end
  end.

(** Device between the Bluetooth block and the radio block. *)
Definition before_radio (d : Device) : Device :=
  port_after SerialBT (port_after Serial d).

(** What [setup] does before it asks the radio to start. *)
Definition boot_events : list Event :=
  [SerialBegin SERIAL_BAUD;
   BluetoothBegin BT_DEVICE_NAME;
   PinMode BUZZER_PIN OUTPUT;
   DigitalWrite BUZZER_PIN LOW]
  ++ both "LoRa Two-Way Chat"
  ++ both "Initializing..."
  ++ both "Bluetooth device name: Sting_Node_2"
  ++ [LoRaSetPins LORA_SS LORA_RST LORA_DIO0].

Definition ready_events : list Event :=
  both "LoRa initialized successfully!"
  ++ both "Ready to send and receive messages."
  ++ both "Input channels: USB Serial + Bluetooth Serial"
  ++ both "-----------------------------------".

Definition error_line : string := "ERROR: LoRa init failed!".

(** *** Sample nodes *)

(** Two lines typed on USB, the first with spaces around it. *)
Definition typing_node : Device :=
  mkDevice ("  hi there " ++ String newline ("second" ++ String newline ""))%string
           "" (fun _ => LOW) true [] "" "".

(** Two packets received. *)
Definition listening_node : Device :=
  mkDevice "" "" (fun _ => LOW) true ["ping"; "pong"] "" "".

(** The payload "hi there" received. *)
Definition hearing_node : Device :=
  mkDevice "" "" (fun _ => LOW) true ["hi there"] "" "".

(** A blank line, then text, on Bluetooth. *)
Definition blank_node : Device :=
  mkDevice "" (" " ++ String (ascii_of_N 13) (String newline "next"))%string
           (fun _ => LOW) true [] "" "".

(** Input pending on every source; the second node differs from the first
    in everything but the pending input. *)
Definition busy_node : Device :=
  mkDevice ("one" ++ String newline ("uno" ++ String newline "eins"))%string
           ("two" ++ String newline ("dos" ++ String newline ""))%string
           (fun _ => LOW) true ["three"; "tres"] "" "".

Definition busy_node' : Device :=
  mkDevice ("one" ++ String newline ("uno" ++ String newline "eins"))%string
           ("two" ++ String newline ("dos" ++ String newline ""))%string
           (fun _ => HIGH) false ["three"; "tres"] "stale" "draft".

(** [n] times the character [c]. *)
Fixpoint copies (n : nat) (c : ascii) : string :=
  match n with
  | O => EmptyString
  | S n' => String c (copies n' c)
  end.

(** A line of 256 bytes typed on USB. *)
Definition long_line_node : Device :=
  mkDevice (copies 256 "a" ++ String newline "")%string
           "" (fun _ => LOW) true [] "" "".

(** A node that receives what the node above puts on the air. *)
Definition long_hearing_node : Device :=
  mkDevice "" "" (fun _ => LOW) true
           (radio_out (snd (loop long_line_node))) "" "".

(** A packet without payload received. *)
Definition empty_packet_node : Device :=
  mkDevice "" "" (fun _ => LOW) true [EmptyString] "" "".

(** A node whose radio does not answer, with input pending everywhere. *)
Definition broken_node : Device :=
  mkDevice ("hello" ++ String newline "")%string
           ("world" ++ String newline "")%string
           (fun _ => HIGH) false ["ping"] "" "".

(** *** Vocabulary of the further properties *)

(** Time spent in [delay], in milliseconds. *)
Fixpoint total_delay (es : list Event) : Z :=
  match es with
  | [] => 0
  | Delay ms :: es' => ms + total_delay es'
  | _ :: es' => total_delay es'
  end.

Definition first_char (s : string) : option ascii :=
  match s with
  | EmptyString => None
  | String c _ => Some c
  end.

Fixpoint last_char (s : string) : option ascii :=
  match s with
  | EmptyString => None
  | String c r =>
      match last_char r with
      | None => Some c
      | found => found
      end
  end.

(** There is a character, and it is not whitespace. *)
Definition solid (o : option ascii) : bool :=
  match o with
  | Some c => negb (isspace c)
  | None => false
  end.

(** A text that is not empty, holds no newline, and neither starts nor
    ends with whitespace. *)
Definition well_trimmed (s : string) : bool :=
  solid (first_char s) && solid (last_char s) && no_newline s.

(** A payload that starts with a character that is not whitespace, holds
    no newline and fits in a packet. *)
Definition sendable (s : string) : bool :=
  solid (first_char s) && no_newline s
  && (String.length s <=? MAX_PKT_LENGTH)%nat.

(** A payload as the program sends them: sendable, and a trimmed line when
    it is shorter than a full packet. *)
Definition payload_ok (P : string) : Prop :=
  sendable P = true
  /\ ((String.length P < MAX_PKT_LENGTH)%nat -> well_trimmed P = true).

Definition nonempty (s : string) : bool :=
  match s with
  | EmptyString => false
  | _ => true
  end.

(** A printed line that reports a received packet. *)
Definition rx_line (l : string) : bool := String.prefix "[RX] " l.

(** A printed line that starts with one of the three tags. *)
Definition tagged (l : string) : bool :=
  String.prefix "[TX USB] " l || String.prefix "[TX BT] " l
  || String.prefix "[RX] " l.

(** The bytes [println] puts on a port for each text: the text, a carriage
    return and a newline. *)
Definition cr : ascii := ascii_of_N 13.

Fixpoint bytes_of (texts : list string) : string :=
  match texts with
  | [] => EmptyString
  | t :: ts => (t ++ String cr (String newline (bytes_of ts)))%string
  end.

Definition wire (port : Stream) (es : list Event) : string :=
  bytes_of (printed port es).

(** The lines in a stream of bytes: what stands between newlines, and
    what follows the last newline when that is not empty.  [cur] is the
    line being read. *)
Fixpoint lines_in (cur s : string) : list string :=
  match s with
  | EmptyString =>
      match cur with
      | EmptyString => []
      | _ => [cur]
      end
  | String c r =>
      if Ascii.eqb c newline then cur :: lines_in EmptyString r
      else lines_in (cur ++ String c EmptyString)%string r
  end.

(** The lines an observer of the port sees. *)
Definition port_lines (port : Stream) (es : list Event) : list string :=
  lines_in EmptyString (wire port es).

(** A node that receives a packet holding a newline. *)
Definition spoofed_node : Device :=
  mkDevice "" "" (fun _ => LOW) true
           [("x" ++ String newline "[RX] y")%string] "" "".

(** A receive buffer that holds the given lines, each with its newline. *)
Fixpoint lines_buf (ls : list string) : string :=
  match ls with
  | [] => EmptyString
  | l :: ls' => (l ++ String newline (lines_buf ls'))%string
  end.

(** What is sent for a line, if there is a line: nothing for a blank
    line, else the trimmed line, cut to what a packet holds. *)
Definition payload_of (l : option string) : list string :=
  match l with
  | None => []
  | Some l => if whitespace_only l then [] else [clip (trim l)]
  end.

(** Payloads of [n] iterations fed the lines [us] on USB and [bs] on
    Bluetooth: per iteration that of the next USB line, then that of the
    next Bluetooth line. *)
Fixpoint forwarded (n : nat) (us bs : list string) : list string :=
  match n with
  | O => []
  | S n' =>
      payload_of (hd_error us) ++ payload_of (hd_error bs)
      ++ forwarded n' (tl us) (tl bs)
  end.

(** The packets among the first [n] that carry a payload. *)
Definition heard (n : nat) (inbox : list string) : list string :=
  filter nonempty (firstn n inbox).

(** A node with nothing pending. *)
Definition idle_node : Device :=
  mkDevice "" "" (fun _ => LOW) true [] "stale" "draft".

(** A node with a line ending in carriage return and newline on USB. *)
Definition crlf_node : Device :=
  mkDevice ("  hi  there" ++ String (ascii_of_N 13) (String newline "more"))%string
           "" (fun _ => LOW) true [] "" "".

(** Lines pending on both ports and three packets, the second empty. *)
Definition chat_node : Device :=
  mkDevice (lines_buf ["a"; " "; "b "]) (lines_buf ["x"])
           (fun _ => LOW) true ["p"; ""; "q"] "" "".

(* ===================================================================== *)
(** ** Strings *)
(* ===================================================================== *)

Section Strings.

Lemma ltrim_empty (s : string) :
  ltrim s = EmptyString <-> whitespace_only s = true.
Proof.
  induction s as [|c r IH]; simpl.
  - tauto.
  - destruct (isspace c); simpl.
    + exact IH.
    + split; discriminate.
Qed.

Lemma rtrim_empty (s : string) :
  rtrim s = EmptyString <-> whitespace_only s = true.
Proof.
  induction s as [|c r IH]; simpl.
  - tauto.
  - destruct (rtrim r) eqn:E.
    + destruct (isspace c); simpl.
      * split; intros _; [apply IH|]; reflexivity.
      * split; discriminate.
    + split; [discriminate|].
      intros H. apply andb_prop in H. destruct H as [_ H].
      apply IH in H. discriminate.
Qed.

Lemma whitespace_only_ltrim (s : string) :
  whitespace_only (ltrim s) = whitespace_only s.
Proof.
  induction s as [|c r IH]; simpl; [reflexivity|].
  destruct (isspace c) eqn:E; simpl; [exact IH|].
  rewrite E. reflexivity.
Qed.

(** The test [message.length() > 0] after [trim] fails exactly on blank
    lines. *)
Lemma trim_empty (s : string) :
  trim s = EmptyString <-> whitespace_only s = true.
Proof.
  unfold trim. rewrite rtrim_empty, whitespace_only_ltrim. tauto.
Qed.

Lemma split_until_line (l rest : string) :
  no_newline l = true ->
  split_until newline (l ++ String newline rest) = (l, rest).
Proof.
  induction l as [|c r IH]; simpl; intros H.
  - reflexivity.
  - apply andb_prop in H. destruct H as [Hc Hr].
    apply negb_true_iff in Hc.
    change (Ascii.eqb c "010"%char) with (Ascii.eqb c newline).
    rewrite Hc, (IH Hr). reflexivity.
Qed.

Lemma char_of_int_byte (c : ascii) :
  char_of_int (Z.of_N (N_of_ascii c)) = c.
Proof.
  unfold char_of_int.
  pose proof (N_ascii_bounded c) as B.
  rewrite Z.mod_small by lia.
  rewrite N2Z.id. apply ascii_N_embedding.
Qed.

Lemma strlen_cons_nonzero (c : ascii) (s : string) :
  (strlen (String c s) =? 0) = false.
Proof. unfold strlen. simpl String.length. apply Z.eqb_neq. lia. Qed.

Lemma strlen_cons_positive (c : ascii) (s : string) :
  (strlen (String c s) >? 0) = true.
Proof. unfold strlen. simpl String.length. apply Z.gtb_lt. lia. Qed.

Lemma to_nat_strlen (s : string) : Z.to_nat (strlen s) = String.length s.
Proof. apply Nat2Z.id. Qed.

Lemma take_all (n : nat) (s : string) :
  (String.length s <= n)%nat -> take n s = s.
Proof.
  revert n. induction s as [|c r IH]; intros n H.
  - destruct n; reflexivity.
  - destruct n as [|n]; [cbn in H; lia|].
    cbn [take]. rewrite IH by (cbn in H; lia). reflexivity.
Qed.

Lemma clip_short (s : string) :
  (String.length s <= MAX_PKT_LENGTH)%nat -> clip s = s.
Proof. apply take_all. Qed.

Lemma string_app_assoc (a b c : string) :
  ((a ++ b) ++ c = a ++ (b ++ c))%string.
Proof. induction a as [|x a IH]; simpl; [reflexivity|]. rewrite IH. reflexivity. Qed.

Lemma string_app_empty_r (a : string) : (a ++ EmptyString)%string = a.
Proof. induction a as [|x a IH]; simpl; [reflexivity|]. rewrite IH. reflexivity. Qed.

End Strings.

(* ===================================================================== *)
(** ** Running programs *)
(* ===================================================================== *)

Section Running.

Context {A B : Type} (m : Prog A) (f : A -> Prog B) (d : Device).

Lemma run_eta : m d = (result m d, after m d, events m d).
Proof. unfold result, after, events. destruct (m d) as [[a d1] e1]. reflexivity. Qed.

(** A first step whose outcome is known. *)
Lemma bind_step (a : A) (d1 : Device) (e1 : list Event) :
  m d = (a, d1, e1) ->
  bind m f d = (result (f a) d1, after (f a) d1, e1 ++ events (f a) d1).
Proof.
  intros Hm. unfold bind, result, after, events. rewrite Hm.
  destruct (f a d1) as [[b d2] e2]. reflexivity.
Qed.

(** A first step that emits nothing hands over to its continuation. *)
Lemma bind_silent (a : A) (d1 : Device) :
  m d = (a, d1, []) -> bind m f d = f a d1.
Proof.
  intros Hm. unfold bind. rewrite Hm.
  destruct (f a d1) as [[b d2] e2]. reflexivity.
Qed.

(** Running a sequence depends on its two parts only through what they
    do on the devices they meet. *)
Lemma bind_ext (m' : Prog A) (f' : A -> Prog B) :
  m d = m' d -> (forall a d1, f a d1 = f' a d1) ->
  bind m f d = bind m' f' d.
Proof.
  intros Hm Hf. unfold bind. rewrite Hm.
  destruct (m' d) as [[a d1] e1]. rewrite Hf. reflexivity.
Qed.

Lemma events_bind :
  events (bind m f) d = events m d ++ events (f (result m d)) (after m d).
Proof.
  unfold events at 1. rewrite (bind_step _ _ _ run_eta). reflexivity.
Qed.

Lemma after_bind :
  after (bind m f) d = after (f (result m d)) (after m d).
Proof.
  unfold after at 1. rewrite (bind_step _ _ _ run_eta). reflexivity.
Qed.

Lemma result_bind :
  result (bind m f) d = result (f (result m d)) (after m d).
Proof.
  unfold result at 1. rewrite (bind_step _ _ _ run_eta). reflexivity.
Qed.

End Running.

(* ===================================================================== *)
(** ** The blocks of [loop], one by one *)
(* ===================================================================== *)

Section Blocks.

Lemma sendLoRaMessage_run (message tag : string) (d : Device) :
  sendLoRaMessage message tag d
  = (tt, set_txbuf EmptyString d, tx_echo tag message).
Proof.
  unfold sendLoRaMessage, tx_echo.
  rewrite !string_app_assoc. reflexivity.
Qed.

Lemma loop_port_run (port : Stream) (tag : string) (d : Device) :
  loop_port port tag d = (tt, port_after port d, port_trace tag (rx_of port d)).
Proof.
  unfold loop_port, port_after, port_trace, available, readStringUntil.
  unfold bind, gets, modify, ret. cbn [fst snd].
  destruct (rx_of port d) as [|c r] eqn:E.
  - reflexivity.
  - rewrite strlen_cons_nonzero. cbn [negb fst snd]. rewrite ?E.
    fold (line_of (String c r)). fold (rest_of (String c r)).
    destruct (line_of (String c r)) as [|a L].
    + reflexivity.
    + rewrite strlen_cons_positive, sendLoRaMessage_run. reflexivity.
Qed.

Lemma port_after_rx (port : Stream) (d : Device) :
  rx_of port (port_after port d) = rest_of (rx_of port d).
Proof.
  unfold port_after.
  destruct (rx_of port d) as [|c r] eqn:E; [exact E|].
  destruct (line_of (String c r)); destruct port; reflexivity.
Qed.

Lemma port_after_frame (port : Stream) (d : Device) :
  gpio (port_after port d) = gpio d
  /\ lora_present (port_after port d) = lora_present d
  /\ lora_inbox (port_after port d) = lora_inbox d
  /\ lora_fifo (port_after port d) = lora_fifo d.
Proof.
  unfold port_after.
  destruct (rx_of port d) as [|c r]; [tauto|].
  destruct (line_of (String c r)); destruct port; cbn; tauto.
Qed.

Lemma port_after_other_rx (d : Device) :
  bt_rx (port_after Serial d) = bt_rx d
  /\ serial_rx (port_after SerialBT d) = serial_rx d.
Proof.
  unfold port_after. split.
  - destruct (rx_of Serial d) as [|c r]; [reflexivity|].
    destruct (line_of (String c r)); reflexivity.
  - destruct (rx_of SerialBT d) as [|c r]; [reflexivity|].
    destruct (line_of (String c r)); reflexivity.
Qed.

(** The [while] loop empties the packet, byte for byte, into [incoming]. *)
Lemma drain_run (f incoming : string) (d : Device) :
  lora_fifo d = f ->
  drain (String.length f) incoming d
  = ((incoming ++ f)%string, set_fifo EmptyString d, []).
Proof.
  revert incoming d.
  induction f as [|c r IH]; intros incoming d Hf.
  - cbn. rewrite string_app_empty_r.
    destruct d; cbn in Hf; subst; reflexivity.
  - cbn [String.length drain].
    unfold LoRa_available, LoRa_read, bind, gets, modify, ret.
    cbn [fst snd]. rewrite Hf, strlen_cons_nonzero. cbn [negb fst snd].
    rewrite Hf. cbn [fst snd].
    rewrite (IH _ (set_fifo r d) eq_refl).
    rewrite char_of_int_byte, string_app_assoc. reflexivity.
Qed.

(** When [drain] stops in [loop], the condition of the [while] is false:
    the fuel [packetSize] does not run out first. *)
Lemma drain_exhausts (d : Device) (incoming : string) :
  result LoRa_available
         (after (drain (Z.to_nat (result LoRa_available d)) incoming) d) = 0.
Proof.
  unfold after. change (result LoRa_available d) with (strlen (lora_fifo d)).
  rewrite to_nat_strlen, (drain_run (lora_fifo d) incoming d eq_refl).
  reflexivity.
Qed.

Lemma parsePacket_run (d : Device) :
  LoRa_parsePacket d
  = match lora_inbox d with
    | [] => (0, d, [])
    | p :: q => (strlen p, set_fifo p (set_inbox q d), [])
    end.
Proof.
  unfold LoRa_parsePacket, bind, gets. cbn [fst snd].
  destruct (lora_inbox d); reflexivity.
Qed.

(** The radio block on a packet that is not empty. *)
Lemma loop_radio_packet (d : Device) (c : ascii) (r : string) (q : list string) :
  lora_inbox d = String c r :: q ->
  loop_radio d
  = (tt,
     after (buzzerBeep 100 2)
           (set_fifo EmptyString (set_fifo (String c r) (set_inbox q d))),
     rx_echo (String c r)).
Proof.
  intros E. unfold loop_radio.
  erewrite bind_silent by (rewrite parsePacket_run, E; reflexivity).
  rewrite strlen_cons_nonzero, to_nat_strlen. cbn [negb].
  erewrite bind_silent by (apply drain_run; reflexivity).
  reflexivity.
Qed.

Lemma loop_radio_idle (d : Device) :
  lora_inbox d = [] -> loop_radio d = (tt, d, []).
Proof.
  intros E. unfold loop_radio.
  erewrite bind_silent by (rewrite parsePacket_run, E; reflexivity).
  reflexivity.
Qed.

(** A packet of size 0 fails the test [if (packetSize)]. *)
Lemma loop_radio_empty (d : Device) (q : list string) :
  lora_inbox d = EmptyString :: q ->
  loop_radio d = (tt, set_fifo EmptyString (set_inbox q d), []).
Proof.
  intros E. unfold loop_radio.
  erewrite bind_silent by (rewrite parsePacket_run, E; reflexivity).
  reflexivity.
Qed.

Lemma loop_radio_events (d : Device) :
  events loop_radio d = radio_trace (lora_inbox d).
Proof.
  unfold events.
  destruct (lora_inbox d) as [|[|c r] q] eqn:E.
  - rewrite (loop_radio_idle d E). reflexivity.
  - rewrite (loop_radio_empty d q E). reflexivity.
  - rewrite (loop_radio_packet d c r q E). reflexivity.
Qed.

Lemma loop_radio_after (d : Device) :
  serial_rx (after loop_radio d) = serial_rx d
  /\ bt_rx (after loop_radio d) = bt_rx d
  /\ lora_inbox (after loop_radio d) = tl (lora_inbox d)
  /\ (gpio d BUZZER_PIN = LOW -> gpio (after loop_radio d) BUZZER_PIN = LOW).
Proof.
  unfold after.
  destruct (lora_inbox d) as [|[|c r] q] eqn:E.
  - rewrite (loop_radio_idle d E). cbn. tauto.
  - rewrite (loop_radio_empty d q E). cbn. tauto.
  - rewrite (loop_radio_packet d c r q E). cbn. tauto.
Qed.

End Blocks.

(* ===================================================================== *)
(** ** The buzzer *)
(* ===================================================================== *)

Section Buzzer.

Variables duration count : Z.

Lemma beep_stop (fuel : nat) (i : Z) (d : Device) :
  (i <? count) = false ->
  buzzerBeep_from fuel i duration count d = (tt, d, []).
Proof. intros H. destruct fuel; cbn [buzzerBeep_from]; [|rewrite H]; reflexivity. Qed.

(** One turn of the [for] loop. *)
Lemma beep_step (fuel : nat) (i : Z) (d : Device) :
  (i <? count) = true ->
  buzzerBeep_from (S fuel) i duration count d
  = (result (buzzerBeep_from fuel (i + 1) duration count)
            (set_gpio BUZZER_PIN LOW (set_gpio BUZZER_PIN HIGH d)),
     after (buzzerBeep_from fuel (i + 1) duration count)
           (set_gpio BUZZER_PIN LOW (set_gpio BUZZER_PIN HIGH d)),
     pulse (to_uint32 duration)
     ++ (if i <? count - 1 then [Delay (to_uint32 duration)] else [])
     ++ events (buzzerBeep_from fuel (i + 1) duration count)
               (set_gpio BUZZER_PIN LOW (set_gpio BUZZER_PIN HIGH d))).
Proof.
  intros H. cbn [buzzerBeep_from]. rewrite H.
  unfold result, after, events.
  destruct (i <? count - 1);
    cbv [bind digitalWrite delay modify emit ret];
    destruct (buzzerBeep_from fuel (i + 1) duration count _) as [[u d2] e2];
    reflexivity.
Qed.

Lemma beep_step_events (fuel : nat) (i : Z) (d : Device) :
  (i <? count) = true ->
  events (buzzerBeep_from (S fuel) i duration count) d
  = pulse (to_uint32 duration)
    ++ (if i <? count - 1 then [Delay (to_uint32 duration)] else [])
    ++ events (buzzerBeep_from fuel (i + 1) duration count)
              (set_gpio BUZZER_PIN LOW (set_gpio BUZZER_PIN HIGH d)).
Proof. intros H. unfold events at 1. rewrite beep_step by exact H. reflexivity. Qed.

Lemma beep_step_after (fuel : nat) (i : Z) (d : Device) :
  (i <? count) = true ->
  after (buzzerBeep_from (S fuel) i duration count) d
  = after (buzzerBeep_from fuel (i + 1) duration count)
          (set_gpio BUZZER_PIN LOW (set_gpio BUZZER_PIN HIGH d)).
Proof. intros H. unfold after at 1. rewrite beep_step by exact H. reflexivity. Qed.

(** The fuel of [buzzerBeep] is exact: with it, the [for] loop stops on its
    own test [i < count], and more fuel changes nothing. *)
Lemma beep_fuel_enough (fuel : nat) (i : Z) (d : Device) :
  count - i <= Z.of_nat fuel ->
  buzzerBeep_from (S fuel) i duration count d
  = buzzerBeep_from fuel i duration count d.
Proof.
  revert i d. induction fuel as [|fuel IH]; intros i d Hle.
  - apply beep_stop. apply Z.ltb_ge. lia.
  - destruct (i <? count) eqn:E.
    + rewrite (beep_step (S fuel)), (beep_step fuel) by exact E.
      unfold result, after, events. rewrite IH by lia. reflexivity.
    + rewrite !beep_stop by exact E. reflexivity.
Qed.

Lemma beep_keeps_low (fuel : nat) (i : Z) (d : Device) :
  gpio d BUZZER_PIN = LOW ->
  gpio (after (buzzerBeep_from fuel i duration count) d) BUZZER_PIN = LOW.
Proof.
  revert i d. induction fuel as [|fuel IH]; intros i d Hd.
  - exact Hd.
  - destruct (i <? count) eqn:E.
    + rewrite beep_step_after by exact E. apply IH. reflexivity.
    + unfold after. rewrite beep_stop by exact E. exact Hd.
Qed.

Lemma beep_ends_low (d : Device) :
  0 < count ->
  gpio (after (buzzerBeep duration count) d) BUZZER_PIN = LOW.
Proof.
  intros Hc. unfold buzzerBeep.
  destruct (Z.to_nat count) as [|n] eqn:En; [lia|].
  rewrite beep_step_after by (apply Z.ltb_lt; exact Hc).
  apply beep_keeps_low. reflexivity.
Qed.

Lemma pulses_pulse (ms : Z) (es : list Event) :
  pulses_from LOW (pulse ms ++ es) = S (pulses_from LOW es).
Proof. reflexivity. Qed.

Lemma beep_from_pulses (fuel : nat) (i : Z) (d : Device) :
  Z.of_nat fuel = count - i ->
  pulses (events (buzzerBeep_from fuel i duration count) d) = fuel.
Proof.
  unfold pulses. revert i d. induction fuel as [|fuel IH]; intros i d Hf.
  - reflexivity.
  - rewrite beep_step_events by (apply Z.ltb_lt; lia).
    rewrite pulses_pulse. f_equal.
    destruct (i <? count - 1); cbn [app pulses_from]; apply IH; lia.
Qed.

(** [buzzerBeep(duration, count)] makes [count] pulses, none when [count]
    is not positive. *)
Lemma beep_pulses (d : Device) :
  pulses (events (buzzerBeep duration count) d) = Z.to_nat count.
Proof.
  unfold buzzerBeep.
  destruct (Z.to_nat count) as [|n] eqn:En; [reflexivity|].
  rewrite <- En. apply beep_from_pulses. lia.
Qed.

End Buzzer.

(* ===================================================================== *)
(** ** Startup *)
(* ===================================================================== *)

Section Startup.

Lemma halt_run (fuel : nat) (d : Device) :
  halt fuel d = (None, d, repeat (Delay 1000) fuel).
Proof.
  induction fuel as [|fuel IH]; [reflexivity|].
  cbn [halt repeat]. cbv [bind delay emit].
  rewrite IH. reflexivity.
Qed.

Lemma setup_fails (fuel : nat) (d : Device) :
  lora_present d = false ->
  setup fuel d
  = (None, set_gpio BUZZER_PIN LOW d,
     boot_events ++ [LoRaBegin LORA_FREQUENCY false]
     ++ both error_line ++ repeat (Delay 1000) fuel).
Proof.
  intros H.
  cbv [setup LoRa_begin bind gets Serial_begin SerialBT_begin pinMode digitalWrite
       printToAll println LoRa_setPins modify emit ret].
  cbn [lora_present set_gpio]. rewrite H. cbn [negb].
  rewrite halt_run, !app_nil_r. reflexivity.
Qed.

Lemma setup_succeeds (fuel : nat) (d : Device) :
  lora_present d = true ->
  setup fuel d
  = (Some tt,
     set_gpio BUZZER_PIN LOW (set_gpio BUZZER_PIN HIGH (set_gpio BUZZER_PIN LOW d)),
     boot_events ++ [LoRaBegin LORA_FREQUENCY true]
     ++ ready_events ++ pulse 100).
Proof.
  intros H.
  cbv [setup LoRa_begin bind gets Serial_begin SerialBT_begin pinMode digitalWrite
       printToAll println LoRa_setPins modify emit ret].
  cbn [lora_present set_gpio]. rewrite H. reflexivity.
Qed.

End Startup.

(* ===================================================================== *)
(** ** One iteration, and many *)
(* ===================================================================== *)

Section Iterations.

Lemma loop_port_events (port : Stream) (tag : string) (d : Device) :
  events (loop_port port tag) d = port_trace tag (rx_of port d).
Proof. unfold events. rewrite loop_port_run. reflexivity. Qed.

Lemma loop_port_after (port : Stream) (tag : string) (d : Device) :
  after (loop_port port tag) d = port_after port d.
Proof. unfold after. rewrite loop_port_run. reflexivity. Qed.

(** [loop] is its three blocks, one after the other. *)
Lemma loop_blocks (d : Device) :
  loop d = (loop_port Serial "USB" ;; loop_port SerialBT "BT" ;; loop_radio) d.
Proof.
  unfold loop.
  erewrite bind_silent by reflexivity.
  apply bind_ext.
  - symmetry. unfold loop_port. erewrite bind_silent by reflexivity. reflexivity.
  - intros _ d1.
    erewrite bind_silent by reflexivity.
    apply bind_ext.
    + symmetry. unfold loop_port. erewrite bind_silent by reflexivity. reflexivity.
    + reflexivity.
Qed.

Lemma loop_after (d : Device) :
  after loop d = after loop_radio (before_radio d).
Proof.
  unfold after at 1. rewrite loop_blocks.
  fold (after (loop_port Serial "USB" ;; loop_port SerialBT "BT" ;; loop_radio) d).
  rewrite !after_bind, !loop_port_after. reflexivity.
Qed.

Lemma before_radio_inputs (d : Device) :
  serial_rx (before_radio d) = rest_of (serial_rx d)
  /\ bt_rx (before_radio d) = rest_of (bt_rx d)
  /\ lora_inbox (before_radio d) = lora_inbox d
  /\ gpio (before_radio d) = gpio d.
Proof.
  unfold before_radio.
  destruct (port_after_frame SerialBT (port_after Serial d)) as (G2 & _ & I2 & _).
  destruct (port_after_frame Serial d) as (G1 & _ & I1 & _).
  destruct (port_after_other_rx d) as [B1 _].
  destruct (port_after_other_rx (port_after Serial d)) as [_ S2].
  pose proof (port_after_rx Serial d) as R1.
  pose proof (port_after_rx SerialBT (port_after Serial d)) as R2.
  cbn [rx_of] in R1, R2.
  repeat split; congruence.
Qed.

(** The events of one iteration, from the three inputs alone. *)
Lemma loop_events (d : Device) :
  events loop d
  = port_trace "USB" (serial_rx d)
    ++ port_trace "BT" (bt_rx d)
    ++ radio_trace (lora_inbox d).
Proof.
  unfold events at 1. rewrite loop_blocks.
  fold (events (loop_port Serial "USB" ;; loop_port SerialBT "BT" ;; loop_radio) d).
  rewrite !events_bind, !loop_port_after, !loop_port_events.
  rewrite loop_radio_events. cbn [rx_of].
  destruct (port_after_other_rx d) as [B1 _].
  destruct (before_radio_inputs d) as (_ & _ & I & _).
  unfold before_radio in I. rewrite B1, I. reflexivity.
Qed.

(** The inputs one iteration leaves for the next. *)
Lemma loop_inputs (d : Device) :
  serial_rx (after loop d) = rest_of (serial_rx d)
  /\ bt_rx (after loop d) = rest_of (bt_rx d)
  /\ lora_inbox (after loop d) = tl (lora_inbox d).
Proof.
  rewrite loop_after.
  destruct (loop_radio_after (before_radio d)) as (S & B & I & _).
  destruct (before_radio_inputs d) as (S' & B' & I' & _).
  repeat split; congruence.
Qed.

Lemma loop_keeps_low (d : Device) :
  gpio d BUZZER_PIN = LOW -> gpio (after loop d) BUZZER_PIN = LOW.
Proof.
  intros H. rewrite loop_after.
  destruct (loop_radio_after (before_radio d)) as (_ & _ & _ & G).
  destruct (before_radio_inputs d) as (_ & _ & _ & G').
  apply G. rewrite G'. exact H.
Qed.

Lemma loops_step_events (n : nat) (d : Device) :
  events (loops (S n)) d = events loop d ++ events (loops n) (after loop d).
Proof. cbn [loops]. apply events_bind. Qed.

Lemma loops_step_after (n : nat) (d : Device) :
  after (loops (S n)) d = after (loops n) (after loop d).
Proof. cbn [loops]. apply after_bind. Qed.

Lemma loops_keep_low (n : nat) (d : Device) :
  gpio d BUZZER_PIN = LOW -> gpio (after (loops n) d) BUZZER_PIN = LOW.
Proof.
  revert d. induction n as [|n IH]; intros d H; [exact H|].
  rewrite loops_step_after. apply IH, loop_keeps_low, H.
Qed.

(** Iterations see the device through its three inputs only. *)
Lemma loops_same_inputs (n : nat) (d d' : Device) :
  serial_rx d' = serial_rx d -> bt_rx d' = bt_rx d ->
  lora_inbox d' = lora_inbox d ->
  events (loops n) d' = events (loops n) d.
Proof.
  revert d d'. induction n as [|n IH]; intros d d' HS HB HI; [reflexivity|].
  rewrite !loops_step_events, !loop_events, HS, HB, HI.
  f_equal.
  destruct (loop_inputs d) as (S1 & B1 & I1).
  destruct (loop_inputs d') as (S2 & B2 & I2).
  apply IH; congruence.
Qed.

End Iterations.

(* ===================================================================== *)
(** ** Reading traces *)
(* ===================================================================== *)

Section Traces.

Lemma printed_app (port : Stream) (a b : list Event) :
  printed port (a ++ b) = printed port a ++ printed port b.
Proof.
  induction a as [|e a IH]; [reflexivity|].
  destruct e as [| | | | |p l| | |]; cbn [app printed]; try exact IH.
  destruct p, port; cbn [app]; rewrite IH; reflexivity.
Qed.

Lemma radio_out_app (a b : list Event) :
  radio_out (a ++ b) = radio_out a ++ radio_out b.
Proof.
  induction a as [|e a IH]; [reflexivity|].
  destruct e; cbn [app radio_out]; rewrite IH; reflexivity.
Qed.

Lemma printed_delays (port : Stream) (n : nat) (ms : Z) :
  printed port (repeat (Delay ms) n) = [].
Proof. induction n as [|n IH]; [reflexivity|exact IH]. Qed.

Lemma radio_out_delays (n : nat) (ms : Z) :
  radio_out (repeat (Delay ms) n) = [].
Proof. induction n as [|n IH]; [reflexivity|exact IH]. Qed.

Lemma pulses_delays (level : bool) (n : nat) (ms : Z) :
  pulses_from level (repeat (Delay ms) n) = O.
Proof. induction n as [|n IH]; [reflexivity|exact IH]. Qed.

Lemma port_trace_mirrored (tag buf : string) :
  printed Serial (port_trace tag buf) = printed SerialBT (port_trace tag buf).
Proof.
  unfold port_trace. destruct buf; [reflexivity|].
  destruct (line_of _); reflexivity.
Qed.

Lemma radio_trace_mirrored (inbox : list string) :
  printed Serial (radio_trace inbox) = printed SerialBT (radio_trace inbox).
Proof. destruct inbox as [|[|c r] q]; reflexivity. Qed.

Lemma loop_mirrored (d : Device) :
  printed Serial (events loop d) = printed SerialBT (events loop d).
Proof.
  rewrite loop_events, !printed_app.
  rewrite !port_trace_mirrored, radio_trace_mirrored. reflexivity.
Qed.

Lemma loops_mirrored (n : nat) (d : Device) :
  printed Serial (events (loops n) d) = printed SerialBT (events (loops n) d).
Proof.
  revert d. induction n as [|n IH]; intros d; [reflexivity|].
  rewrite loops_step_events, !printed_app, loop_mirrored, IH. reflexivity.
Qed.

Lemma idle_app (a b : list Event) :
  IdleLow a -> IdleLow b -> IdleLow (a ++ b).
Proof.
  intros Ha Hb. induction Ha as [|ms es _ IH|e es He _ IH].
  - exact Hb.
  - rewrite <- app_assoc. apply idle_pulse, IH.
  - cbn [app]. apply idle_other; [exact He|exact IH].
Qed.

Lemma idle_delays (n : nat) (ms : Z) : IdleLow (repeat (Delay ms) n).
Proof.
  induction n as [|n IH]; [apply idle_nil|].
  apply idle_other; [reflexivity|exact IH].
Qed.

Lemma idle_both (line : string) : IdleLow (both line).
Proof. repeat (apply idle_other; [reflexivity|]). apply idle_nil. Qed.

Lemma idle_one_pulse (ms : Z) : IdleLow (pulse ms).
Proof. rewrite <- (app_nil_r (pulse ms)). apply idle_pulse, idle_nil. Qed.

Lemma idle_port_trace (tag buf : string) : IdleLow (port_trace tag buf).
Proof.
  unfold port_trace. destruct buf; [apply idle_nil|].
  destruct (line_of _); [apply idle_nil|].
  unfold tx_echo. apply idle_app; [apply idle_both|].
  apply idle_other; [reflexivity|apply idle_nil].
Qed.

Lemma idle_radio_trace (inbox : list string) : IdleLow (radio_trace inbox).
Proof.
  destruct inbox as [|[|c r] q]; try apply idle_nil.
  unfold radio_trace, rx_echo.
  apply idle_app; [apply idle_both|].
  apply idle_pulse, idle_other; [reflexivity|apply idle_one_pulse].
Qed.

Lemma idle_loops (n : nat) (d : Device) : IdleLow (events (loops n) d).
Proof.
  revert d. induction n as [|n IH]; intros d; [apply idle_nil|].
  rewrite loops_step_events, loop_events.
  repeat apply idle_app; auto using idle_port_trace, idle_radio_trace.
Qed.

Lemma idle_boot : IdleLow boot_events.
Proof. repeat (apply idle_other; [reflexivity|]). apply idle_nil. Qed.

Lemma idle_setup (fuel : nat) (d : Device) : IdleLow (events (setup fuel) d).
Proof.
  unfold events. destruct (lora_present d) eqn:H.
  - rewrite (setup_succeeds fuel d H). cbn [snd].
    apply idle_app; [apply idle_boot|].
    apply idle_other; [reflexivity|].
    apply idle_app; [|apply idle_one_pulse].
    unfold ready_events. repeat apply idle_app; apply idle_both.
  - rewrite (setup_fails fuel d H). cbn [snd].
    apply idle_app; [apply idle_boot|].
    apply idle_other; [reflexivity|].
    apply idle_app; [apply idle_both|apply idle_delays].
Qed.

(** The payload a port block sends for the line [l]. *)
Lemma port_trace_line (tag l rest : string) :
  no_newline l = true ->
  port_trace tag (l ++ String newline rest)
  = if whitespace_only l then [] else tx_echo tag (trim l).
Proof.
  intros H. unfold port_trace, line_of.
  rewrite (split_until_line l rest H). cbn [fst].
  destruct (l ++ String newline rest)%string eqn:E.
  - destruct l; discriminate.
  - destruct (whitespace_only l) eqn:W.
    + apply trim_empty in W. rewrite W. reflexivity.
    + destruct (trim l) eqn:T; [|reflexivity].
      apply trim_empty in T. congruence.
Qed.

End Traces.

(* ===================================================================== *)
(** ** Properties of the firmware *)
(* ===================================================================== *)

(** C1, as stated, fails on a line longer than a packet: of a line of 256
    bytes typed on USB the iteration echoes all 256 bytes and transmits
    the first 255. *)
Lemma long_line_cut :
  line_of (serial_rx long_line_node) = copies 256 "a"
  /\ events loop long_line_node
     = [Println Serial ("[TX USB] " ++ copies 256 "a")%string;
        Println SerialBT ("[TX USB] " ++ copies 256 "a")%string;
        LoRaTransmit (copies 255 "a")]
  /\ radio_out (events loop long_line_node) <> [copies 256 "a"].
Proof.
  split; [vm_compute; reflexivity|]. split; [vm_compute; reflexivity|].
  intros H.
  apply (f_equal (fun l => match l with
                           | [P] => Nat.eqb (String.length P) 256
                           | _ => false
                           end)) in H.
  vm_compute in H. discriminate H.
Qed.

(** C1, amended.  A line waiting on the USB or Bluetooth port that is not
    empty once trimmed and fits in a packet (255 bytes) is forwarded: the
    port's block of [loop] prints the trimmed line [L] behind '[TX USB] '
    or '[TX BT] ' on both serial outputs and then transmits exactly [L];
    these three events appear, in this order, in the events of the
    iteration. *)
Theorem line_forwarded (port : Stream) (d : Device) (L : string) :
  line_of (rx_of port d) = L ->
  L <> EmptyString ->
  (String.length L <= MAX_PKT_LENGTH)%nat ->
  events (loop_port port (tag_of port)) d
  = [Println Serial (prefix_of port ++ L)%string;
     Println SerialBT (prefix_of port ++ L)%string;
     LoRaTransmit L]
  /\ exists before rest,
       events loop d
       = before
         ++ [Println Serial (prefix_of port ++ L)%string;
             Println SerialBT (prefix_of port ++ L)%string;
             LoRaTransmit L]
         ++ rest.
Proof.
  intros HL Hne Hlen.
  assert (Hblock : port_trace (tag_of port) (rx_of port d)
                   = [Println Serial (prefix_of port ++ L)%string;
                      Println SerialBT (prefix_of port ++ L)%string;
                      LoRaTransmit L]).
  { unfold port_trace. destruct (rx_of port d) as [|c r] eqn:E.
    - cbn in HL. congruence.
    - rewrite HL. destruct L as [|a L]; [congruence|].
      unfold tx_echo. rewrite (clip_short _ Hlen).
      destruct port; reflexivity. }
  split.
  - rewrite loop_port_events. exact Hblock.
  - rewrite loop_events. destruct port; cbn [tag_of rx_of] in Hblock.
    + exists [], (port_trace "BT" (bt_rx d) ++ radio_trace (lora_inbox d)).
      rewrite Hblock. reflexivity.
    + exists (port_trace "USB" (serial_rx d)), (radio_trace (lora_inbox d)).
      rewrite Hblock. reflexivity.
Qed.

Lemma line_forwarded_witness :
  line_of (rx_of Serial typing_node) = "hi there"
  /\ "hi there" <> EmptyString
  /\ (String.length "hi there" <= MAX_PKT_LENGTH)%nat
  /\ (events (loop_port Serial (tag_of Serial)) typing_node
      = [Println Serial "[TX USB] hi there";
         Println SerialBT "[TX USB] hi there";
         LoRaTransmit "hi there"]
      /\ exists before rest,
           events loop typing_node
           = before
             ++ [Println Serial "[TX USB] hi there";
                 Println SerialBT "[TX USB] hi there";
                 LoRaTransmit "hi there"]
             ++ rest).
Proof.
  split; [reflexivity|]. split; [discriminate|].
  split; [apply Nat.leb_le; reflexivity|].
  apply (line_forwarded Serial typing_node "hi there");
    [reflexivity | discriminate | apply Nat.leb_le; reflexivity].
Defined.

(** C2, as stated, fails on a packet without payload: [parsePacket] answers
    0 for it, the test [if (packetSize)] fails, and the iteration prints
    nothing and does not beep, although the packet is taken from the
    radio. *)
Lemma empty_packet_ignored :
  lora_inbox empty_packet_node = [EmptyString]
  /\ events loop empty_packet_node = []
  /\ lora_inbox (after loop empty_packet_node) = []
  /\ ~ (printed Serial (events loop empty_packet_node)
          = [("[RX] " ++ EmptyString)%string]
        /\ pulses (events loop empty_packet_node) = 2%nat).
Proof.
  split; [reflexivity|]. split; [reflexivity|]. split; [reflexivity|].
  intros [H _]. discriminate H.
Qed.

(** C2, amended.  For every packet with a payload [P] that is not empty,
    the radio block of [loop] prints '[RX] ' followed by [P] on both serial
    outputs and then makes exactly two buzzer pulses of 100 ms, 100 ms
    apart; these events end the events of the iteration. *)
Theorem packet_echoed (d : Device) (P : string) (q : list string) :
  lora_inbox d = P :: q ->
  P <> EmptyString ->
  events loop_radio d
  = [Println Serial ("[RX] " ++ P)%string;
     Println SerialBT ("[RX] " ++ P)%string;
     DigitalWrite BUZZER_PIN HIGH; Delay 100; DigitalWrite BUZZER_PIN LOW;
     Delay 100;
     DigitalWrite BUZZER_PIN HIGH; Delay 100; DigitalWrite BUZZER_PIN LOW]
  /\ pulses (events loop_radio d) = 2%nat
  /\ exists before, events loop d = before ++ events loop_radio d.
Proof.
  intros E Hne. destruct P as [|c r]; [congruence|].
  assert (H : events loop_radio d = rx_echo (String c r)).
  { rewrite loop_radio_events, E. reflexivity. }
  split; [exact H|]. split.
  - rewrite H. reflexivity.
  - exists (port_trace "USB" (serial_rx d) ++ port_trace "BT" (bt_rx d)).
    rewrite loop_events, loop_radio_events, <- app_assoc. reflexivity.
Qed.

Lemma packet_echoed_witness :
  lora_inbox listening_node = ["ping"; "pong"]
  /\ "ping" <> EmptyString
  /\ (events loop_radio listening_node
      = [Println Serial "[RX] ping";
         Println SerialBT "[RX] ping";
         DigitalWrite BUZZER_PIN HIGH; Delay 100; DigitalWrite BUZZER_PIN LOW;
         Delay 100;
         DigitalWrite BUZZER_PIN HIGH; Delay 100; DigitalWrite BUZZER_PIN LOW]
      /\ pulses (events loop_radio listening_node) = 2%nat
      /\ exists before,
           events loop listening_node
           = before ++ events loop_radio listening_node).
Proof.
  split; [reflexivity|]. split; [discriminate|].
  apply (packet_echoed listening_node "ping" ["pong"]);
    [reflexivity | discriminate].
Defined.

(** C3, as stated, fails on a line longer than a packet: of a line of 256
    bytes typed on node A's USB port, the payload is the first 255 bytes,
    and node B, which receives it, prints those and not the line. *)
Lemma long_line_round_trip_cut :
  serial_rx long_line_node = (copies 256 "a" ++ String newline "")%string
  /\ trim (copies 256 "a") = copies 256 "a"
  /\ lora_inbox long_hearing_node
     = radio_out (events (loop_port Serial "USB") long_line_node)
  /\ radio_out (events (loop_port Serial "USB") long_line_node)
     = [copies 255 "a"]
  /\ printed Serial (events loop long_hearing_node)
     = [("[RX] " ++ copies 255 "a")%string]
  /\ printed Serial (events loop long_hearing_node)
     <> [("[RX] " ++ trim (copies 256 "a"))%string].
Proof.
  split; [reflexivity|]. split; [vm_compute; reflexivity|].
  split; [vm_compute; reflexivity|]. split; [vm_compute; reflexivity|].
  split; [vm_compute; reflexivity|].
  intros H.
  apply (f_equal (fun l => match l with
                           | [P] => Nat.eqb (String.length P) 260
                           | _ => true
                           end)) in H.
  vm_compute in H. discriminate H.
Qed.

(** C3, amended.  Round trip.  Node A has the line [line] waiting on USB,
    its trimmed text fits in a packet (255 bytes), and node B finds in its
    radio what A's iteration puts on the air for that line.  A blank line
    puts nothing on the air.  Otherwise the payload is exactly the trimmed
    line, it is the first payload A sends in the iteration, and B prints
    '[RX] ' followed by exactly the trimmed line on both outputs, as the
    last line of its iteration. *)
Theorem radio_round_trip (dA dB : Device) (line rest : string) (q : list string) :
  no_newline line = true ->
  (String.length (trim line) <= MAX_PKT_LENGTH)%nat ->
  serial_rx dA = (line ++ String newline rest)%string ->
  lora_inbox dB = radio_out (events (loop_port Serial "USB") dA) ++ q ->
  if whitespace_only line
  then radio_out (events (loop_port Serial "USB") dA) = []
  else radio_out (events (loop_port Serial "USB") dA) = [trim line]
       /\ (exists others, radio_out (events loop dA) = trim line :: others)
       /\ printed Serial (events loop_radio dB) = [("[RX] " ++ trim line)%string]
       /\ printed SerialBT (events loop_radio dB) = [("[RX] " ++ trim line)%string]
       /\ (exists before,
             printed Serial (events loop dB)
             = before ++ [("[RX] " ++ trim line)%string])
       /\ (exists before,
             printed SerialBT (events loop dB)
             = before ++ [("[RX] " ++ trim line)%string]).
Proof.
  intros Hnl Hlen HA HB.
  assert (Hout : radio_out (events (loop_port Serial "USB") dA)
                 = if whitespace_only line then [] else [trim line]).
  { rewrite loop_port_events. cbn [rx_of]. rewrite HA.
    rewrite (port_trace_line "USB" line rest Hnl).
    destruct (whitespace_only line); [reflexivity|].
    unfold tx_echo. rewrite (clip_short _ Hlen). reflexivity. }
  rewrite Hout in HB.
  destruct (whitespace_only line) eqn:W; [exact Hout|].
  assert (Hne : trim line <> EmptyString).
  { intros T. apply trim_empty in T. congruence. }
  split; [exact Hout|]. split.
  - exists (radio_out (port_trace "BT" (bt_rx dA) ++ radio_trace (lora_inbox dA))).
    rewrite loop_events, radio_out_app.
    change (serial_rx dA) with (rx_of Serial dA).
    rewrite <- (loop_port_events Serial "USB" dA), Hout. reflexivity.
  - cbn [app] in HB.
    rewrite loop_events, loop_radio_events, HB, !app_assoc, !printed_app.
    destruct (trim line) as [|c r]; [congruence|].
    split; [reflexivity|]. split; [reflexivity|]. split.
    + exists (printed Serial (port_trace "USB" (serial_rx dB))
              ++ printed Serial (port_trace "BT" (bt_rx dB))).
      reflexivity.
    + exists (printed SerialBT (port_trace "USB" (serial_rx dB))
              ++ printed SerialBT (port_trace "BT" (bt_rx dB))).
      reflexivity.
Qed.

Lemma radio_round_trip_witness :
  no_newline "  hi there " = true
  /\ (String.length (trim "  hi there ") <= MAX_PKT_LENGTH)%nat
  /\ serial_rx typing_node
     = ("  hi there " ++ String newline ("second" ++ String newline ""))%string
  /\ lora_inbox hearing_node
     = radio_out (events (loop_port Serial "USB") typing_node) ++ []
  /\ radio_out (events (loop_port Serial "USB") typing_node) = ["hi there"]
  /\ printed Serial (events loop_radio hearing_node) = ["[RX] hi there"]
  /\ printed SerialBT (events loop_radio hearing_node) = ["[RX] hi there"].
Proof.
  split; [reflexivity|]. split; [apply Nat.leb_le; reflexivity|].
  split; [reflexivity|]. split; [reflexivity|].
  assert (Hlen : (String.length (trim "  hi there ") <= MAX_PKT_LENGTH)%nat)
    by (apply Nat.leb_le; reflexivity).
  pose proof (radio_round_trip typing_node hearing_node "  hi there "
                ("second" ++ String newline "")%string []
                eq_refl Hlen eq_refl eq_refl) as H.
  cbn [whitespace_only isspace andb] in H.
  destruct H as (H1 & _ & H3 & H4 & _).
  split; [exact H1|]. split; [exact H3|exact H4].
Defined.

(** C4.  When the radio does not start, [setup] prints one error line on
    both outputs and never returns, so [loop] never runs: however long the
    program is observed ([fuel] turns of the halt loop), and whatever input
    is pending, everything after the error line is a [delay(1000)].  No
    further line is printed, nothing is transmitted and the buzzer does not
    pulse. *)
Theorem init_failure_halts (fuel : nat) (d : Device) :
  lora_present d = false ->
  result (setup fuel) d = None
  /\ events (firmware fuel) d
     = boot_events ++ [LoRaBegin LORA_FREQUENCY false]
       ++ [Println Serial "ERROR: LoRa init failed!";
           Println SerialBT "ERROR: LoRa init failed!"]
       ++ repeat (Delay 1000) fuel
  /\ printed Serial (events (firmware fuel) d)
     = printed Serial boot_events ++ ["ERROR: LoRa init failed!"]
  /\ printed SerialBT (events (firmware fuel) d)
     = printed SerialBT boot_events ++ ["ERROR: LoRa init failed!"]
  /\ radio_out (events (firmware fuel) d) = []
  /\ pulses (events (firmware fuel) d) = O.
Proof.
  intros H.
  assert (E : events (firmware fuel) d
              = boot_events ++ [LoRaBegin LORA_FREQUENCY false]
                ++ both error_line ++ repeat (Delay 1000) fuel).
  { unfold firmware, events, bind. rewrite (setup_fails fuel d H).
    cbn [fst snd ret]. apply app_nil_r. }
  split; [unfold result; rewrite (setup_fails fuel d H); reflexivity|].
  split; [exact E|].
  rewrite E. repeat split.
  - rewrite !printed_app, printed_delays. reflexivity.
  - rewrite !printed_app, printed_delays. reflexivity.
  - rewrite !radio_out_app, radio_out_delays. reflexivity.
  - unfold pulses. cbn [boot_events both error_line app pulses_from].
    cbn. apply pulses_delays.
Qed.

Lemma init_failure_halts_witness :
  lora_present broken_node = false
  /\ result (setup 5) broken_node = None
  /\ printed Serial (events (firmware 5) broken_node)
     = ["LoRa Two-Way Chat"; "Initializing...";
        "Bluetooth device name: Sting_Node_2"; "ERROR: LoRa init failed!"]
  /\ radio_out (events (firmware 5) broken_node) = []
  /\ pulses (events (firmware 5) broken_node) = O.
Proof.
  split; [reflexivity|].
  destruct (init_failure_halts 5 broken_node eq_refl)
    as (H1 & _ & H3 & _ & H5 & H6).
  split; [exact H1|]. split; [exact H3|]. split; [exact H5|exact H6].
Defined.

(** C5.  [setup] makes exactly one buzzer pulse when the radio starts, and
    the pulse is the last thing it does, after the radio has answered and
    the four ready lines are printed; it makes none when the radio does not
    start, however long the halt loop is observed. *)
Theorem startup_beep (fuel : nat) (d : Device) :
  pulses (events (setup fuel) d) = (if lora_present d then 1 else 0)%nat
  /\ (if lora_present d
      then result (setup fuel) d = Some tt
           /\ events (setup fuel) d
              = boot_events ++ [LoRaBegin LORA_FREQUENCY true] ++ ready_events
                ++ [DigitalWrite BUZZER_PIN HIGH; Delay 100;
                    DigitalWrite BUZZER_PIN LOW]
           /\ pulses (boot_events ++ [LoRaBegin LORA_FREQUENCY true]
                      ++ ready_events) = O
      else result (setup fuel) d = None).
Proof.
  unfold result, events.
  destruct (lora_present d) eqn:H.
  - rewrite (setup_succeeds fuel d H). repeat split.
  - rewrite (setup_fails fuel d H). split; [|reflexivity].
    unfold pulses. cbn. apply pulses_delays.
Qed.

(** C6.  A pending line that is empty or holds only whitespace is taken
    from the port and dropped: the port's block of [loop] emits no event
    (no echo, no transmission) and changes nothing in the device but the
    receive buffer of that port, and the iteration emits what it would emit
    with that port silent. *)
Theorem blank_line_dropped (port : Stream) (tag : string) (d : Device) :
  whitespace_only (fst (split_until newline (rx_of port d))) = true ->
  loop_port port tag d
  = (tt, set_rx port (snd (split_until newline (rx_of port d))) d, [])
  /\ events loop d = events loop (set_rx port EmptyString d).
Proof.
  intros W. apply trim_empty in W. fold (line_of (rx_of port d)) in W.
  assert (T : forall t, port_trace t (rx_of port d) = []).
  { intros t. unfold port_trace. rewrite W. destruct (rx_of port d); reflexivity. }
  split.
  - rewrite loop_port_run, T. unfold port_after, rest_of.
    destruct (rx_of port d) as [|c r] eqn:E.
    + destruct d, port; cbn in E; subst; reflexivity.
    + rewrite W. reflexivity.
  - rewrite !loop_events.
    destruct port; cbn [rx_of] in T; rewrite T; reflexivity.
Qed.

Lemma blank_line_dropped_witness :
  whitespace_only (fst (split_until newline (rx_of SerialBT blank_node))) = true
  /\ loop_port SerialBT "BT" blank_node
     = (tt, set_rx SerialBT "next" blank_node, [])
  /\ events loop blank_node = events loop (set_rx SerialBT EmptyString blank_node).
Proof.
  split; [reflexivity|].
  apply (blank_line_dropped SerialBT "BT" blank_node). reflexivity.
Defined.

(** C7.  Whatever the program prints, it prints on both outputs: over a
    whole run ([setup], then any number of iterations, or the halt loop),
    and over any single iteration, the lines printed on USB serial and the
    lines printed on Bluetooth serial are the same, in the same order. *)
Theorem outputs_mirrored (fuel : nat) (d : Device) :
  printed Serial (events (firmware fuel) d)
  = printed SerialBT (events (firmware fuel) d)
  /\ printed Serial (events (setup fuel) d)
     = printed SerialBT (events (setup fuel) d)
  /\ printed Serial (events loop d) = printed SerialBT (events loop d).
Proof.
  assert (S : printed Serial (events (setup fuel) d)
              = printed SerialBT (events (setup fuel) d)).
  { unfold events. destruct (lora_present d) eqn:H.
    - rewrite (setup_succeeds fuel d H). reflexivity.
    - rewrite (setup_fails fuel d H). cbn [snd].
      rewrite !app_assoc, !printed_app, !printed_delays. reflexivity. }
  split; [|split; [exact S|apply loop_mirrored]].
  unfold firmware. rewrite events_bind, !printed_app, S. f_equal.
  destruct (result (setup fuel) d); [apply loops_mirrored|reflexivity].
Qed.

(** C8.  One iteration polls USB serial, then Bluetooth serial, then the
    radio: its events are those of the USB block, then of the Bluetooth
    block, then of the radio block, each a function of that source's
    pending input alone.  Iterations share no program state: two devices
    with the same pending inputs give the same events over any number of
    iterations, whatever else differs between them. *)
Theorem loop_polls_in_order (n : nat) (d d' : Device) :
  serial_rx d' = serial_rx d ->
  bt_rx d' = bt_rx d ->
  lora_inbox d' = lora_inbox d ->
  events loop d
  = events (loop_port Serial "USB") d
    ++ events (loop_port SerialBT "BT") d
    ++ events loop_radio d
  /\ events loop d
     = port_trace "USB" (serial_rx d)
       ++ port_trace "BT" (bt_rx d)
       ++ radio_trace (lora_inbox d)
  /\ events (loops n) d' = events (loops n) d.
Proof.
  intros HS HB HI. split; [|split].
  - rewrite loop_events, !loop_port_events, loop_radio_events. reflexivity.
  - apply loop_events.
  - apply loops_same_inputs; assumption.
Qed.

Lemma loop_polls_in_order_witness :
  serial_rx busy_node' = serial_rx busy_node
  /\ bt_rx busy_node' = bt_rx busy_node
  /\ lora_inbox busy_node' = lora_inbox busy_node
  /\ events loop busy_node
     = [Println Serial "[TX USB] one"; Println SerialBT "[TX USB] one";
        LoRaTransmit "one";
        Println Serial "[TX BT] two"; Println SerialBT "[TX BT] two";
        LoRaTransmit "two";
        Println Serial "[RX] three"; Println SerialBT "[RX] three";
        DigitalWrite BUZZER_PIN HIGH; Delay 100; DigitalWrite BUZZER_PIN LOW;
        Delay 100;
        DigitalWrite BUZZER_PIN HIGH; Delay 100; DigitalWrite BUZZER_PIN LOW]
  /\ events (loops 3) busy_node' = events (loops 3) busy_node.
Proof.
  split; [reflexivity|]. split; [reflexivity|]. split; [reflexivity|].
  destruct (loop_polls_in_order 3 busy_node busy_node' eq_refl eq_refl eq_refl)
    as (_ & H2 & H3).
  split; [exact H2|exact H3].
Defined.

(** C9.  The buzzer pin idles low.  [buzzerBeep] with a positive count
    leaves the pin low whatever it was before, and with any count keeps a
    low pin low; [setup] leaves it low, with or without a radio; an
    iteration of [loop] that starts with the pin low ends with it low; so
    the pin is low after [setup] and any number of iterations.  Over the
    whole run the pin is driven high only at the start of a pulse, which
    ends by driving it low. *)
Theorem buzzer_idle_low (duration count : Z) (fuel n : nat) (d : Device) :
  0 < count ->
  gpio (after (buzzerBeep duration count) d) BUZZER_PIN = LOW
  /\ gpio (after (setup fuel) d) BUZZER_PIN = LOW
  /\ gpio (after (firmware fuel) d) BUZZER_PIN = LOW
  /\ IdleLow (events (firmware fuel) d)
  /\ (forall c d0, gpio d0 BUZZER_PIN = LOW ->
        gpio (after (buzzerBeep duration c) d0) BUZZER_PIN = LOW)
  /\ (forall d0, gpio d0 BUZZER_PIN = LOW ->
        gpio (after loop d0) BUZZER_PIN = LOW
        /\ gpio (after (loops n) d0) BUZZER_PIN = LOW).
Proof.
  intros Hc.
  assert (S : gpio (after (setup fuel) d) BUZZER_PIN = LOW).
  { unfold after. destruct (lora_present d) eqn:H.
    - rewrite (setup_succeeds fuel d H). reflexivity.
    - rewrite (setup_fails fuel d H). reflexivity. }
  split; [apply beep_ends_low, Hc|]. split; [exact S|].
  split; [|split; [|split]].
  - unfold firmware. rewrite after_bind.
    destruct (result (setup fuel) d); [apply loops_keep_low, S|exact S].
  - unfold firmware. rewrite events_bind.
    apply idle_app; [apply idle_setup|].
    destruct (result (setup fuel) d); [apply idle_loops|apply idle_nil].
  - intros c d0 H. apply beep_keeps_low, H.
  - intros d0 H. split; [apply loop_keeps_low, H|apply loops_keep_low, H].
Qed.

Lemma buzzer_idle_low_witness :
  0 < 3
  /\ gpio (after (buzzerBeep 50 3) broken_node) BUZZER_PIN = LOW
  /\ gpio (after (setup 4) broken_node) BUZZER_PIN = LOW
  /\ gpio (after (firmware 4) broken_node) BUZZER_PIN = LOW.
Proof.
  split; [reflexivity|].
  destruct (buzzer_idle_low 50 3 4 2 broken_node eq_refl) as (H1 & H2 & H3 & _).
  split; [exact H1|]. split; [exact H2|exact H3].
Defined.

(** C10.  One iteration takes at most one line from a port, whatever is
    pending elsewhere.  With the line [l] and then [r] waiting on a port,
    after the iteration exactly [r] is still waiting there, however many
    lines it holds; the port's block has put on the air at most the one
    line [l] (trimmed, and cut to a packet), the iteration sends that and
    what the other port's block sends for its own one line, and no
    iteration sends more than two payloads. *)
Theorem one_line_per_iteration (port : Stream) (d : Device) (l r : string) :
  no_newline l = true ->
  rx_of port d = (l ++ String newline r)%string ->
  rx_of port (after loop d) = r
  /\ radio_out (events (loop_port port (tag_of port)) d)
     = (if whitespace_only l then [] else [clip (trim l)])
  /\ radio_out (events loop d)
     = match port with
       | Serial =>
           (if whitespace_only l then [] else [clip (trim l)])
           ++ radio_out (events (loop_port SerialBT "BT") d)
       | SerialBT =>
           radio_out (events (loop_port Serial "USB") d)
           ++ (if whitespace_only l then [] else [clip (trim l)])
       end
  /\ (List.length (radio_out (events (loop_port Serial "USB") d)) <= 1)%nat
  /\ (List.length (radio_out (events (loop_port SerialBT "BT") d)) <= 1)%nat.
Proof.
  intros N H.
  assert (Hmine : forall tag,
             radio_out (port_trace tag (rx_of port d))
             = if whitespace_only l then [] else [clip (trim l)]).
  { intros tag. rewrite H, (port_trace_line tag l r N).
    destruct (whitespace_only l); reflexivity. }
  assert (Hone : forall tag buf,
             (List.length (radio_out (port_trace tag buf)) <= 1)%nat).
  { intros tag buf. unfold port_trace. destruct buf; [apply Nat.le_0_l|].
    destruct (line_of _); [apply Nat.le_0_l|apply le_n]. }
  split.
  - destruct (loop_inputs d) as (S & B & _).
    destruct port; cbn [rx_of] in *; [rewrite S, H|rewrite B, H];
      unfold rest_of; rewrite (split_until_line l r N); reflexivity.
  - split; [rewrite loop_port_events; apply Hmine|].
    split; [|split; rewrite loop_port_events; apply Hone].
    rewrite loop_events, !radio_out_app, !loop_port_events.
    assert (R : radio_out (radio_trace (lora_inbox d)) = []).
    { destruct (lora_inbox d) as [|[|c t] q]; reflexivity. }
    rewrite R, app_nil_r.
    destruct port; cbn [rx_of] in *; rewrite Hmine; reflexivity.
Qed.

Lemma one_line_per_iteration_witness :
  no_newline "  hi there " = true
  /\ rx_of Serial typing_node
     = ("  hi there " ++ String newline ("second" ++ String newline ""))%string
  /\ rx_of Serial (after loop typing_node)
     = ("second" ++ String newline "")%string
  /\ radio_out (events loop typing_node) = ["hi there"].
Proof.
  split; [reflexivity|]. split; [reflexivity|].
  destruct (one_line_per_iteration Serial typing_node "  hi there "
              ("second" ++ String newline "")%string eq_refl eq_refl)
    as (H1 & _ & H3 & _).
  split; [exact H1|]. rewrite H3. reflexivity.
Defined.

(* ===================================================================== *)
(** ** Further properties: the buzzer *)
(* ===================================================================== *)

Section BuzzerMore.

Variables duration count : Z.

Lemma total_delay_app (a b : list Event) :
  total_delay (a ++ b) = total_delay a + total_delay b.
Proof.
  induction a as [|e a IH]; [reflexivity|].
  destruct e; cbn [app total_delay]; rewrite IH; lia.
Qed.



Lemma beep_from_frame (fuel : nat) (i : Z) (d : Device) :
  let d' := after (buzzerBeep_from fuel i duration count) d in
  serial_rx d' = serial_rx d /\ bt_rx d' = bt_rx d
  /\ lora_present d' = lora_present d /\ lora_inbox d' = lora_inbox d
  /\ lora_fifo d' = lora_fifo d /\ lora_txbuf d' = lora_txbuf d
  /\ forall pin, pin <> BUZZER_PIN -> gpio d' pin = gpio d pin.
Proof.
  revert i d. induction fuel as [|fuel IH]; intros i d; cbv zeta.
  - repeat split.
  - destruct (i <? count) eqn:E.
    + rewrite beep_step_after by exact E.
      destruct (IH (i + 1) (set_gpio BUZZER_PIN LOW (set_gpio BUZZER_PIN HIGH d)))
        as (H1 & H2 & H3 & H4 & H5 & H6 & H7).
      repeat split; try assumption.
      intros pin Hp. rewrite (H7 pin Hp). cbn.
      apply Z.eqb_neq in Hp. rewrite Hp. reflexivity.
    + unfold after. rewrite beep_stop by exact E. repeat split.
Qed.

End BuzzerMore.

(** X1.  [buzzerBeep(duration, count)] makes exactly [count] pulses, for
    every duration and every count; none when [count] is zero or
    negative. *)
Theorem beep_makes_count_pulses (duration count : Z) (d : Device) :
  pulses (events (buzzerBeep duration count) d) = Z.to_nat count.
Proof. apply beep_pulses. Qed.



(** X3.  With a count of zero or less, [buzzerBeep] does nothing at all: no
    event, and the device is as it was, even when the pin was high. *)
Theorem beep_without_count (duration count : Z) (d : Device) :
  count <= 0 ->
  buzzerBeep duration count d = (tt, d, []).
Proof.
  intros Hc. unfold buzzerBeep.
  apply beep_stop. apply Z.ltb_ge. lia.
Qed.

Lemma beep_without_count_witness :
  -2 <= 0 /\ buzzerBeep 100 (-2) broken_node = (tt, broken_node, []).
Proof.
  split; [discriminate|].
  apply (beep_without_count 100 (-2) broken_node). discriminate.
Defined.

(** X4.  [buzzerBeep] touches the buzzer pin and nothing else: pending
    input on both ports, the whole state of the radio and the level of
    every other pin are as before the call. *)
Theorem beep_touches_buzzer_only (duration count : Z) (d : Device) (pin : Z) :
  pin <> BUZZER_PIN ->
  gpio (after (buzzerBeep duration count) d) pin = gpio d pin
  /\ serial_rx (after (buzzerBeep duration count) d) = serial_rx d
  /\ bt_rx (after (buzzerBeep duration count) d) = bt_rx d
  /\ lora_present (after (buzzerBeep duration count) d) = lora_present d
  /\ lora_inbox (after (buzzerBeep duration count) d) = lora_inbox d
  /\ lora_fifo (after (buzzerBeep duration count) d) = lora_fifo d
  /\ lora_txbuf (after (buzzerBeep duration count) d) = lora_txbuf d.
Proof.
  intros Hp. unfold buzzerBeep.
  destruct (beep_from_frame duration count (Z.to_nat count) 0 d)
    as (H1 & H2 & H3 & H4 & H5 & H6 & H7).
  repeat split; try assumption. apply H7, Hp.
Qed.

Lemma beep_touches_buzzer_only_witness :
  5 <> BUZZER_PIN
  /\ gpio (after (buzzerBeep 100 2) broken_node) 5 = HIGH
  /\ lora_inbox (after (buzzerBeep 100 2) broken_node) = ["ping"].
Proof.
  split; [discriminate|].
  destruct (beep_touches_buzzer_only 100 2 broken_node 5)
    as (H1 & _ & _ & _ & H5 & _); [discriminate|].
  split; [exact H1|exact H5].
Defined.

(* ===================================================================== *)
(** ** Further properties: iterations and their input *)
(* ===================================================================== *)

Section InputMore.

Lemma loop_port_idle (port : Stream) (tag : string) (d : Device) :
  rx_of port d = EmptyString -> loop_port port tag d = (tt, d, []).
Proof.
  intros H. rewrite loop_port_run. unfold port_after. rewrite H. reflexivity.
Qed.

Lemma loop_idle (d : Device) :
  serial_rx d = EmptyString -> bt_rx d = EmptyString -> lora_inbox d = [] ->
  loop d = (tt, d, []).
Proof.
  intros HS HB HI. rewrite loop_blocks.
  erewrite bind_silent by (apply loop_port_idle; exact HS).
  erewrite bind_silent by (apply loop_port_idle; exact HB).
  apply loop_radio_idle, HI.
Qed.

Lemma loops_idle (n : nat) (d : Device) :
  serial_rx d = EmptyString -> bt_rx d = EmptyString -> lora_inbox d = [] ->
  loops n d = (tt, d, []).
Proof.
  intros HS HB HI. induction n as [|n IH]; [reflexivity|].
  cbn [loops]. erewrite bind_silent by (apply loop_idle; assumption).
  exact IH.
Qed.

Lemma rest_of_shorter (buf : string) :
  (String.length (rest_of buf) <= pred (String.length buf))%nat.
Proof.
  unfold rest_of. induction buf as [|c r IH]; [apply le_n|].
  cbn [split_until String.length pred].
  destruct (Ascii.eqb c newline); cbn [snd]; [apply le_n|].
  etransitivity; [exact IH|]. apply Nat.le_pred_l.
Qed.

Lemma loops_inputs_shrink (n : nat) (d : Device) :
  (String.length (serial_rx (after (loops n) d))
   <= String.length (serial_rx d) - n)%nat
  /\ (String.length (bt_rx (after (loops n) d))
      <= String.length (bt_rx d) - n)%nat
  /\ lora_inbox (after (loops n) d) = skipn n (lora_inbox d).
Proof.
  revert d. induction n as [|n IH]; intros d.
  - cbn. rewrite !Nat.sub_0_r. repeat split; apply le_n.
  - rewrite loops_step_after.
    destruct (IH (after loop d)) as (HS & HB & HI).
    destruct (loop_inputs d) as (S1 & B1 & I1).
    rewrite S1 in HS. rewrite B1 in HB. rewrite I1 in HI.
    pose proof (rest_of_shorter (serial_rx d)) as RS.
    pose proof (rest_of_shorter (bt_rx d)) as RB.
    split; [lia|]. split; [lia|].
    rewrite HI. destruct (lora_inbox d); [destruct n|]; reflexivity.
Qed.

Lemma empty_of_length (s : string) : String.length s = O -> s = EmptyString.
Proof. destruct s; [reflexivity|discriminate]. Qed.

Lemma loop_radio_fifo (d : Device) :
  lora_inbox d <> [] -> lora_fifo (after loop_radio d) = EmptyString.
Proof.
  intros H. unfold after.
  destruct (lora_inbox d) as [|[|c r] q] eqn:E; [congruence| |].
  - rewrite (loop_radio_empty d q E). reflexivity.
  - rewrite (loop_radio_packet d c r q E). cbn [fst snd].
    apply (beep_from_frame 100 2 (Z.to_nat 2) 0).
Qed.

End InputMore.

(** X5.  An iteration that finds nothing pending, on either port or in the
    radio, does nothing: it emits no event and leaves the device as it
    was, and so does any number of such iterations. *)
Theorem idle_iteration (n : nat) (d : Device) :
  serial_rx d = EmptyString ->
  bt_rx d = EmptyString ->
  lora_inbox d = [] ->
  loop d = (tt, d, []) /\ loops n d = (tt, d, []).
Proof.
  intros HS HB HI.
  split; [apply loop_idle|apply loops_idle]; assumption.
Qed.

Lemma idle_iteration_witness :
  serial_rx idle_node = EmptyString
  /\ bt_rx idle_node = EmptyString
  /\ lora_inbox idle_node = []
  /\ loop idle_node = (tt, idle_node, [])
  /\ loops 4 idle_node = (tt, idle_node, []).
Proof.
  split; [reflexivity|]. split; [reflexivity|]. split; [reflexivity|].
  apply (idle_iteration 4 idle_node); reflexivity.
Defined.

(** X6.  Pending input runs out: every iteration that finds bytes on a
    port takes at least one of them, and a packet if there is one.  After
    as many iterations as the longest of the three inputs, nothing is
    pending, and all later iterations are silent. *)
Theorem input_runs_out (n m : nat) (d : Device) :
  (String.length (serial_rx d) <= n)%nat ->
  (String.length (bt_rx d) <= n)%nat ->
  (List.length (lora_inbox d) <= n)%nat ->
  serial_rx (after (loops n) d) = EmptyString
  /\ bt_rx (after (loops n) d) = EmptyString
  /\ lora_inbox (after (loops n) d) = []
  /\ events (loops m) (after (loops n) d) = [].
Proof.
  intros HS HB HI.
  destruct (loops_inputs_shrink n d) as (S1 & B1 & I1).
  assert (ES : serial_rx (after (loops n) d) = EmptyString)
    by (apply empty_of_length; lia).
  assert (EB : bt_rx (after (loops n) d) = EmptyString)
    by (apply empty_of_length; lia).
  assert (EI : lora_inbox (after (loops n) d) = [])
    by (rewrite I1; apply skipn_all2; exact HI).
  repeat split; try assumption.
  unfold events. rewrite loops_idle by assumption. reflexivity.
Qed.

Lemma input_runs_out_witness :
  (String.length (serial_rx chat_node) <= 7)%nat
  /\ (String.length (bt_rx chat_node) <= 7)%nat
  /\ (List.length (lora_inbox chat_node) <= 7)%nat
  /\ serial_rx (after (loops 7) chat_node) = EmptyString
  /\ bt_rx (after (loops 7) chat_node) = EmptyString
  /\ lora_inbox (after (loops 7) chat_node) = []
  /\ events (loops 2) (after (loops 7) chat_node) = [].
Proof.
  split; [cbn; lia|]. split; [cbn; lia|]. split; [cbn; lia|].
  apply (input_runs_out 7 2 chat_node); cbn; lia.
Defined.

(** X7.  One packet per iteration.  After [n] iterations exactly the first
    [n] received packets are gone from the radio and the later ones wait
    untouched; an iteration that takes a packet reads it to its last byte,
    so nothing of it is left in the radio's buffer. *)
Theorem one_packet_per_iteration (n : nat) (d : Device) :
  lora_inbox d <> [] ->
  lora_inbox (after loop d) = tl (lora_inbox d)
  /\ lora_fifo (after loop d) = EmptyString
  /\ lora_inbox (after (loops n) d) = skipn n (lora_inbox d).
Proof.
  intros H.
  destruct (loop_inputs d) as (_ & _ & I).
  destruct (loops_inputs_shrink n d) as (_ & _ & In).
  split; [exact I|]. split; [|exact In].
  rewrite loop_after. apply loop_radio_fifo.
  destruct (before_radio_inputs d) as (_ & _ & I' & _). congruence.
Qed.

Lemma one_packet_per_iteration_witness :
  lora_inbox chat_node <> []
  /\ lora_inbox (after loop chat_node) = [""; "q"]
  /\ lora_fifo (after loop chat_node) = EmptyString
  /\ lora_inbox (after (loops 2) chat_node) = ["q"].
Proof.
  split; [discriminate|].
  apply (one_packet_per_iteration 2 chat_node). discriminate.
Defined.

(** X8.  [setup] reads nothing: whatever is pending on the two ports and in
    the radio when the node starts is still pending when [setup] is over,
    with or without a radio.  Without a radio it stays pending for ever:
    the run never takes a byte of it. *)
Theorem startup_keeps_input (fuel : nat) (d : Device) :
  serial_rx (after (setup fuel) d) = serial_rx d
  /\ bt_rx (after (setup fuel) d) = bt_rx d
  /\ lora_inbox (after (setup fuel) d) = lora_inbox d
  /\ (if lora_present d then True
      else serial_rx (after (firmware fuel) d) = serial_rx d
           /\ bt_rx (after (firmware fuel) d) = bt_rx d
           /\ lora_inbox (after (firmware fuel) d) = lora_inbox d).
Proof.
  unfold firmware, after.
  destruct (lora_present d) eqn:H.
  - rewrite (setup_succeeds fuel d H). repeat split.
  - erewrite bind_step by (apply setup_fails; exact H).
    rewrite (setup_fails fuel d H). repeat split.
Qed.

(* ===================================================================== *)
(** ** Further properties: what goes on the air *)
(* ===================================================================== *)

Section PayloadMore.

Lemma no_newline_split (buf : string) :
  no_newline (fst (split_until newline buf)) = true.
Proof.
  induction buf as [|c r IH]; [reflexivity|].
  cbn [split_until]. destruct (Ascii.eqb c newline) eqn:E; [reflexivity|].
  cbn [fst no_newline]. rewrite E, IH. reflexivity.
Qed.

Lemma no_newline_ltrim (s : string) :
  no_newline s = true -> no_newline (ltrim s) = true.
Proof.
  induction s as [|c r IH]; [reflexivity|].
  intros H. cbn [ltrim]. destruct (isspace c); [|exact H].
  apply IH. cbn [no_newline] in H. apply andb_prop in H. tauto.
Qed.

Lemma no_newline_rtrim (s : string) :
  no_newline s = true -> no_newline (rtrim s) = true.
Proof.
  induction s as [|c r IH]; [reflexivity|].
  intros H. cbn [no_newline] in H. apply andb_prop in H. destruct H as [Hc Hr].
  cbn [rtrim]. specialize (IH Hr).
  destruct (rtrim r) as [|a t].
  - destruct (isspace c); [reflexivity|].
    cbn [no_newline]. rewrite Hc. reflexivity.
  - cbn [no_newline] in *. rewrite Hc, IH. reflexivity.
Qed.

Lemma ltrim_starts_solid (s : string) :
  ltrim s = EmptyString \/ solid (first_char (ltrim s)) = true.
Proof.
  induction s as [|c r IH]; [left; reflexivity|].
  cbn [ltrim]. destruct (isspace c) eqn:E; [exact IH|].
  right. cbn. rewrite E. reflexivity.
Qed.

Lemma rtrim_keeps_first (s : string) :
  rtrim s = EmptyString \/ first_char (rtrim s) = first_char s.
Proof.
  destruct s as [|c r]; [left; reflexivity|].
  cbn [rtrim]. destruct (rtrim r).
  - destruct (isspace c); [left|right]; reflexivity.
  - right. reflexivity.
Qed.

Lemma rtrim_ends_solid (s : string) :
  rtrim s = EmptyString \/ solid (last_char (rtrim s)) = true.
Proof.
  induction s as [|c r IH]; [left; reflexivity|].
  cbn [rtrim]. destruct (rtrim r) as [|a t] eqn:E.
  - destruct (isspace c) eqn:Ec; [left; reflexivity|].
    right. cbn. rewrite Ec. reflexivity.
  - right. destruct IH as [IH|IH]; [discriminate|].
    change (last_char (String c (String a t)))
      with (match last_char (String a t) with
            | None => Some c
            | found => found
            end).
    destruct (last_char (String a t)); [exact IH|discriminate].
Qed.

Lemma trim_well_trimmed (s : string) :
  no_newline s = true ->
  trim s = EmptyString \/ well_trimmed (trim s) = true.
Proof.
  intros H. unfold trim, well_trimmed.
  destruct (rtrim_ends_solid (ltrim s)) as [E|L]; [left; exact E|].
  right. rewrite L, (no_newline_rtrim _ (no_newline_ltrim _ H)).
  destruct (rtrim_keeps_first (ltrim s)) as [E|F].
  - rewrite E in L. discriminate.
  - rewrite F. destruct (ltrim_starts_solid s) as [E|S].
    + rewrite E in L. discriminate.
    + rewrite S. reflexivity.
Qed.

Lemma length_take (n : nat) (s : string) :
  (String.length (take n s) <= n)%nat.
Proof.
  revert s. induction n as [|n IH]; intros s; [apply le_n|].
  destruct s as [|c r]; [apply Nat.le_0_l|].
  cbn [take String.length]. apply le_n_S, IH.
Qed.

Lemma take_not_full (n : nat) (s : string) :
  (String.length (take n s) < n)%nat -> take n s = s.
Proof.
  revert s. induction n as [|n IH]; intros s H; [inversion H|].
  destruct s as [|c r]; [reflexivity|].
  cbn [take String.length] in *. rewrite IH by lia. reflexivity.
Qed.

Lemma no_newline_take (n : nat) (s : string) :
  no_newline s = true -> no_newline (take n s) = true.
Proof.
  revert s. induction n as [|n IH]; intros s H; [reflexivity|].
  destruct s as [|c r]; [reflexivity|].
  cbn [take no_newline] in *. apply andb_prop in H. destruct H as [Hc Hr].
  rewrite Hc, (IH _ Hr). reflexivity.
Qed.

Lemma first_char_clip (s : string) : first_char (clip s) = first_char s.
Proof. destruct s; reflexivity. Qed.

Lemma clip_payload_ok (L : string) :
  well_trimmed L = true -> payload_ok (clip L).
Proof.
  intros W. split.
  - unfold well_trimmed in W.
    apply andb_prop in W. destruct W as [W Hn].
    apply andb_prop in W. destruct W as [Hf _].
    unfold sendable. rewrite first_char_clip, Hf.
    unfold clip. rewrite (no_newline_take _ _ Hn).
    apply Nat.leb_le, length_take.
  - intros H. unfold clip in *. rewrite (take_not_full _ _ H). exact W.
Qed.

Lemma port_trace_payloads (tag buf : string) :
  Forall payload_ok (radio_out (port_trace tag buf)).
Proof.
  unfold port_trace. destruct buf as [|c r]; [constructor|].
  destruct (trim_well_trimmed _ (no_newline_split (String c r))) as [E|W];
    fold (line_of (String c r)) in *.
  - rewrite E. constructor.
  - destruct (line_of (String c r)) as [|a L] eqn:E; [constructor|].
    change (radio_out (tx_echo tag (String a L))) with [clip (String a L)].
    constructor; [apply clip_payload_ok, W|constructor].
Qed.

Lemma radio_trace_silent (inbox : list string) :
  radio_out (radio_trace inbox) = [].
Proof. destruct inbox as [|[|c r] q]; reflexivity. Qed.

Lemma loops_payloads (n : nat) (d : Device) :
  Forall payload_ok (radio_out (events (loops n) d)).
Proof.
  revert d. induction n as [|n IH]; intros d; [constructor|].
  rewrite loops_step_events, loop_events, !radio_out_app, radio_trace_silent.
  rewrite app_nil_r.
  apply Forall_app. split; [|apply IH].
  apply Forall_app. split; apply port_trace_payloads.
Qed.

Lemma setup_radio_silent (fuel : nat) (d : Device) :
  radio_out (events (setup fuel) d) = [].
Proof.
  unfold events. destruct (lora_present d) eqn:H.
  - rewrite (setup_succeeds fuel d H). reflexivity.
  - rewrite (setup_fails fuel d H). cbn [snd].
    rewrite !radio_out_app, radio_out_delays. reflexivity.
Qed.

Lemma payload_ok_nonempty (P : string) :
  payload_ok P -> P <> EmptyString.
Proof. intros [W _] E. subst P. discriminate W. Qed.

End PayloadMore.

(** X9.  Whatever a node puts on the air, in [setup] and any number of
    iterations, is the start of a trimmed line: every payload is not
    empty, begins with a character that is not whitespace, holds no
    newline and is at most 255 bytes long; a payload shorter than 255
    bytes is a whole trimmed line, so it does not end with whitespace
    either. *)
Theorem payloads_are_trimmed_lines (fuel n : nat) (d : Device) :
  Forall (fun P => sendable P = true
                   /\ ((String.length P < MAX_PKT_LENGTH)%nat ->
                       well_trimmed P = true))
         (radio_out (events (loops n) d))
  /\ Forall (fun P => sendable P = true
                      /\ ((String.length P < MAX_PKT_LENGTH)%nat ->
                          well_trimmed P = true))
            (radio_out (events (firmware fuel) d)).
Proof.
  split; [apply loops_payloads|].
  unfold firmware. rewrite events_bind, radio_out_app, setup_radio_silent.
  destruct (result (setup fuel) d); [apply loops_payloads|constructor].
Qed.

(** X10.  Two nodes running this program understand each other: a payload
    that one node sends, in any iteration, is never taken for "no packet"
    by a node that receives it, which prints '[RX] ' followed by the
    payload on both outputs and pulses the buzzer twice. *)
Theorem sent_payload_is_echoed (n : nat) (dA dB : Device) (P : string)
    (q : list string) :
  In P (radio_out (events (loops n) dA)) ->
  lora_inbox dB = P :: q ->
  printed Serial (events loop_radio dB) = [("[RX] " ++ P)%string]
  /\ printed SerialBT (events loop_radio dB) = [("[RX] " ++ P)%string]
  /\ pulses (events loop_radio dB) = 2%nat.
Proof.
  intros HP HB.
  pose proof (loops_payloads n dA) as F.
  rewrite Forall_forall in F. apply F, payload_ok_nonempty in HP.
  rewrite loop_radio_events, HB.
  destruct P as [|c r]; [congruence|]. repeat split.
Qed.

Lemma sent_payload_is_echoed_witness :
  In "hi there" (radio_out (events (loops 1) typing_node))
  /\ lora_inbox hearing_node = ["hi there"]
  /\ printed Serial (events loop_radio hearing_node) = ["[RX] hi there"]
  /\ printed SerialBT (events loop_radio hearing_node) = ["[RX] hi there"]
  /\ pulses (events loop_radio hearing_node) = 2%nat.
Proof.
  split; [left; reflexivity|]. split; [reflexivity|].
  apply (sent_payload_is_echoed 1 typing_node hearing_node "hi there" []);
    [left; reflexivity | reflexivity].
Defined.

(* ===================================================================== *)
(** ** Further properties: what is printed, and when the buzzer sounds *)
(* ===================================================================== *)

Section EchoMore.

Lemma heard_step (n : nat) (inbox : list string) :
  heard (S n) inbox
  = match inbox with
    | [] => []
    | P :: q => (if nonempty P then [P] else []) ++ heard n q
    end.
Proof.
  unfold heard. destruct inbox as [|P q]; [reflexivity|].
  cbn [firstn filter]. destruct (nonempty P); reflexivity.
Qed.

Lemma heard_nil (n : nat) : heard n [] = [].
Proof. unfold heard. rewrite firstn_nil. reflexivity. Qed.

Lemma port_trace_tagged (port out : Stream) (buf : string) :
  Forall (fun l => tagged l = true)
         (printed out (port_trace (tag_of port) buf))
  /\ filter rx_line (printed out (port_trace (tag_of port) buf)) = [].
Proof.
  unfold port_trace. destruct buf as [|c r]; [split; [constructor|reflexivity]|].
  destruct (line_of (String c r)); [split; [constructor|reflexivity]|].
  destruct port, out; cbn; split;
    try reflexivity; constructor; try reflexivity; constructor.
Qed.

Lemma radio_trace_tagged (out : Stream) (inbox : list string) :
  Forall (fun l => tagged l = true) (printed out (radio_trace inbox))
  /\ filter rx_line (printed out (radio_trace inbox))
     = map (String.append "[RX] ") (heard 1 inbox).
Proof.
  destruct inbox as [|[|c r] q]; try (split; [constructor|reflexivity]).
  destruct out; cbn; split;
    try reflexivity; constructor; try reflexivity; constructor.
Qed.

Lemma pulses_idle_app (a b : list Event) :
  IdleLow a ->
  pulses_from LOW (a ++ b) = (pulses_from LOW a + pulses_from LOW b)%nat.
Proof.
  intros Ha. induction Ha as [|ms es _ IH|e es He _ IH].
  - reflexivity.
  - rewrite <- app_assoc, !pulses_pulse, IH. reflexivity.
  - destruct e as [| | |pin v| | | | |]; cbn [app pulses_from]; try exact IH.
    cbn [raises_buzzer] in He.
    destruct (pin =? BUZZER_PIN); [|exact IH].
    cbn [andb] in He. subst v. cbn [LOW andb negb Nat.add]. exact IH.
Qed.

Lemma port_trace_quiet (tag buf : string) :
  pulses_from LOW (port_trace tag buf) = O
  /\ total_delay (port_trace tag buf) = 0.
Proof.
  unfold port_trace. destruct buf as [|c r]; [split; reflexivity|].
  destruct (line_of (String c r)); split; reflexivity.
Qed.

Lemma radio_trace_sound (inbox : list string) :
  pulses_from LOW (radio_trace inbox) = (2 * List.length (heard 1 inbox))%nat
  /\ total_delay (radio_trace inbox) = 300 * Z.of_nat (List.length (heard 1 inbox)).
Proof. destruct inbox as [|[|c r] q]; split; reflexivity. Qed.

Lemma heard_split (n : nat) (inbox : list string) :
  heard (S n) inbox = heard 1 inbox ++ heard n (tl inbox).
Proof.
  rewrite heard_step.
  destruct inbox as [|P q]; [cbn [tl]; rewrite !heard_nil; reflexivity|].
  rewrite (heard_step 0), app_nil_r. reflexivity.
Qed.

Lemma idle_loop (d : Device) : IdleLow (events loop d).
Proof.
  rewrite loop_events.
  repeat apply idle_app; auto using idle_port_trace, idle_radio_trace.
Qed.

Lemma loops_pulses (n : nat) (d : Device) :
  pulses (events (loops n) d)
  = (2 * List.length (heard n (lora_inbox d)))%nat.
Proof.
  unfold pulses. revert d. induction n as [|n IH]; intros d; [reflexivity|].
  rewrite loops_step_events, (pulses_idle_app _ _ (idle_loop d)), IH.
  destruct (loop_inputs d) as (_ & _ & I). rewrite I.
  rewrite loop_events.
  rewrite !pulses_idle_app by apply idle_port_trace.
  destruct (port_trace_quiet "USB" (serial_rx d)) as [U _].
  destruct (port_trace_quiet "BT" (bt_rx d)) as [B _].
  destruct (radio_trace_sound (lora_inbox d)) as [R _].
  rewrite U, B, R, (heard_split n), length_app. lia.
Qed.

End EchoMore.

(** Every text given to [println] by iterations starts with a tag. *)
Lemma texts_are_tagged (n : nat) (out : Stream) (d : Device) :
  Forall (fun l => tagged l = true) (printed out (events (loops n) d)).
Proof.
  revert d. induction n as [|n IH]; intros d; [constructor|].
  rewrite loops_step_events, loop_events, !printed_app.
  repeat (apply Forall_app; split); try apply IH.
  - apply (port_trace_tagged Serial).
  - apply (port_trace_tagged SerialBT).
  - apply radio_trace_tagged.
Qed.

(** The texts given to [println] for received packets, in order. *)
Lemma rx_texts_in_order (n : nat) (out : Stream) (d : Device) :
  filter rx_line (printed out (events (loops n) d))
  = map (String.append "[RX] ") (heard n (lora_inbox d)).
Proof.
  revert d. induction n as [|n IH]; intros d; [reflexivity|].
  rewrite loops_step_events, loop_events, !printed_app, !filter_app, IH.
  destruct (loop_inputs d) as (_ & _ & I). rewrite I.
  destruct (port_trace_tagged Serial out (serial_rx d)) as [_ U].
  destruct (port_trace_tagged SerialBT out (bt_rx d)) as [_ B].
  destruct (radio_trace_tagged out (lora_inbox d)) as [_ R].
  cbn [tag_of] in U, B. rewrite U, B, R, (heard_split n), map_app. reflexivity.
Qed.

(** X13.  The buzzer counts receptions: [n] iterations make two pulses for
    each of the first [n] packets that carries a payload and no other
    pulse, and a whole run adds the one pulse of [setup] when the radio
    started and makes none when it did not. *)
Theorem buzzer_counts_packets (n : nat) (d : Device) :
  pulses (events (loops n) d) = (2 * List.length (heard n (lora_inbox d)))%nat
  /\ pulses (events (firmware n) d)
     = (if lora_present d
        then 1 + 2 * List.length (heard n (lora_inbox d))
        else 0)%nat.
Proof.
  split; [apply loops_pulses|].
  unfold firmware, pulses. rewrite events_bind.
  rewrite (pulses_idle_app _ _ (idle_setup n d)).
  unfold events at 1, result, after.
  destruct (lora_present d) eqn:H.
  - rewrite (setup_succeeds n d H). cbn [fst snd].
    fold (pulses (events (loops n)
            (set_gpio BUZZER_PIN LOW
               (set_gpio BUZZER_PIN HIGH (set_gpio BUZZER_PIN LOW d))))).
    rewrite loops_pulses. reflexivity.
  - rewrite (setup_fails n d H). cbn [fst snd].
    rewrite !(pulses_idle_app boot_events) by apply idle_boot.
    cbn. rewrite pulses_delays. reflexivity.
Qed.

(** X14.  Only reception makes an iteration wait: an iteration spends
    300 ms in [delay] when it takes a packet that carries a payload, and
    no time at all otherwise, however much it forwards. *)
Theorem iteration_blocking_time (d : Device) :
  total_delay (events loop d)
  = 300 * Z.of_nat (List.length (heard 1 (lora_inbox d))).
Proof.
  rewrite loop_events, !total_delay_app.
  destruct (port_trace_quiet "USB" (serial_rx d)) as [_ U].
  destruct (port_trace_quiet "BT" (bt_rx d)) as [_ B].
  destruct (radio_trace_sound (lora_inbox d)) as [_ R].
  rewrite U, B, R. reflexivity.
Qed.

(* ===================================================================== *)
(** ** Further properties: what forwarding does to a line *)
(* ===================================================================== *)

Section ForwardMore.

Lemma ltrim_skips (pre s : string) :
  whitespace_only pre = true -> ltrim (pre ++ s) = ltrim s.
Proof.
  induction pre as [|c r IH]; [reflexivity|].
  cbn [whitespace_only]. intros H. apply andb_prop in H. destruct H as [Hc Hr].
  cbn [String.append ltrim]. rewrite Hc. apply IH, Hr.
Qed.

Lemma ltrim_solid (s : string) :
  solid (first_char s) = true -> ltrim s = s.
Proof.
  destruct s as [|c r]; [discriminate|].
  cbn. intros H. apply negb_true_iff in H. rewrite H. reflexivity.
Qed.

Lemma rtrim_skips (s post : string) :
  whitespace_only post = true -> rtrim (s ++ post) = rtrim s.
Proof.
  intros H. induction s as [|c r IH].
  - apply rtrim_empty, H.
  - cbn [String.append rtrim]. rewrite IH. reflexivity.
Qed.

Lemma rtrim_solid (s : string) :
  solid (last_char s) = true -> rtrim s = s.
Proof.
  induction s as [|c r IH]; [discriminate|].
  cbn [last_char rtrim]. destruct (last_char r) as [x|] eqn:E.
  - intros H. rewrite (IH H). destruct r; [discriminate|reflexivity].
  - destruct r as [|a t].
    + cbn. intros H. apply negb_true_iff in H. rewrite H. reflexivity.
    + cbn [last_char] in E. destruct (last_char t); discriminate.
Qed.

Lemma first_char_app (s t : string) :
  solid (first_char s) = true -> first_char (s ++ t) = first_char s.
Proof. destruct s; [discriminate|reflexivity]. Qed.

(** Trimming takes the whitespace around a text and leaves the text. *)
Lemma trim_core (pre core post : string) :
  whitespace_only pre = true -> whitespace_only post = true ->
  solid (first_char core) = true -> solid (last_char core) = true ->
  trim (pre ++ core ++ post) = core.
Proof.
  intros Hpre Hpost Hf Hl. unfold trim.
  rewrite (ltrim_skips _ _ Hpre), ltrim_solid.
  - rewrite (rtrim_skips _ _ Hpost). apply rtrim_solid, Hl.
  - rewrite (first_char_app _ _ Hf). exact Hf.
Qed.

Lemma rest_of_lines (ls : list string) :
  Forall (fun l => no_newline l = true) ls ->
  rest_of (lines_buf ls) = lines_buf (tl ls).
Proof.
  intros F. destruct F as [|l ls Hl _]; [reflexivity|].
  unfold rest_of. cbn [lines_buf tl].
  rewrite (split_until_line l _ Hl). reflexivity.
Qed.

Lemma port_trace_lines (tag : string) (ls : list string) :
  Forall (fun l => no_newline l = true) ls ->
  radio_out (port_trace tag (lines_buf ls)) = payload_of (hd_error ls).
Proof.
  intros F. destruct F as [|l ls Hl _]; [reflexivity|].
  cbn [lines_buf hd_error payload_of].
  rewrite (port_trace_line tag l _ Hl).
  destruct (whitespace_only l); reflexivity.
Qed.

Lemma Forall_tl {A} (P : A -> Prop) (l : list A) :
  Forall P l -> Forall P (tl l).
Proof. intros F. destruct F; [constructor|assumption]. Qed.

End ForwardMore.

(** X15.  Forwarding strips the whitespace around a line and nothing else.
    For a pending line made of whitespace, a text of at most 255 bytes
    that starts and ends with characters that are not whitespace, and
    whitespace again (a carriage return before the newline, say), the
    payload sent and the text echoed are exactly that text, spaces inside
    it included. *)
Theorem forwarding_keeps_the_text (port : Stream) (d : Device)
    (pre core post rest : string) :
  whitespace_only pre = true ->
  whitespace_only post = true ->
  solid (first_char core) = true ->
  solid (last_char core) = true ->
  (String.length core <= MAX_PKT_LENGTH)%nat ->
  no_newline (pre ++ core ++ post) = true ->
  rx_of port d = ((pre ++ core ++ post) ++ String newline rest)%string ->
  events (loop_port port (tag_of port)) d
  = [Println Serial (prefix_of port ++ core)%string;
     Println SerialBT (prefix_of port ++ core)%string;
     LoRaTransmit core]
  /\ rx_of port (after (loop_port port (tag_of port)) d) = rest.
Proof.
  intros Hpre Hpost Hf Hl Hlen Hn Hrx.
  rewrite loop_port_events, loop_port_after, port_after_rx, Hrx.
  unfold rest_of. rewrite (split_until_line _ rest Hn). cbn [snd].
  rewrite (port_trace_line _ _ rest Hn).
  rewrite (trim_core pre core post Hpre Hpost Hf Hl).
  destruct (whitespace_only (pre ++ core ++ post)) eqn:W.
  - apply trim_empty in W.
    rewrite (trim_core pre core post Hpre Hpost Hf Hl) in W.
    subst core. discriminate.
  - split; [|reflexivity].
    unfold tx_echo. rewrite (clip_short _ Hlen).
    destruct port; reflexivity.
Qed.

Lemma forwarding_keeps_the_text_witness :
  whitespace_only "  " = true
  /\ whitespace_only (String (ascii_of_N 13) "") = true
  /\ solid (first_char "hi  there") = true
  /\ solid (last_char "hi  there") = true
  /\ (String.length "hi  there" <= MAX_PKT_LENGTH)%nat
  /\ no_newline ("  " ++ "hi  there" ++ String (ascii_of_N 13) "") = true
  /\ rx_of Serial crlf_node
     = (("  " ++ "hi  there" ++ String (ascii_of_N 13) "")
        ++ String newline "more")%string
  /\ events (loop_port Serial (tag_of Serial)) crlf_node
     = [Println Serial "[TX USB] hi  there";
        Println SerialBT "[TX USB] hi  there";
        LoRaTransmit "hi  there"]
  /\ rx_of Serial (after (loop_port Serial (tag_of Serial)) crlf_node) = "more".
Proof.
  split; [reflexivity|]. split; [reflexivity|]. split; [reflexivity|].
  split; [reflexivity|]. split; [apply Nat.leb_le; reflexivity|].
  split; [reflexivity|]. split; [reflexivity|].
  apply (forwarding_keeps_the_text Serial crlf_node "  " "hi  there"
           (String (ascii_of_N 13) "") "more");
    try reflexivity.
  apply Nat.leb_le. reflexivity.
Defined.

(** X16.  Lines are forwarded in the order they were typed, one line per
    port and iteration.  With the lines [us] pending on USB and [bs] on
    Bluetooth, [n] iterations send, iteration by iteration, the next USB
    line and then the next Bluetooth line, each trimmed and cut to the 255
    bytes of a packet, and skip the blank ones; received packets do not
    disturb the order. *)
Theorem lines_forwarded_in_order (n : nat) (d : Device) (us bs : list string) :
  Forall (fun l => no_newline l = true) us ->
  Forall (fun l => no_newline l = true) bs ->
  serial_rx d = lines_buf us ->
  bt_rx d = lines_buf bs ->
  radio_out (events (loops n) d) = forwarded n us bs.
Proof.
  revert d us bs. induction n as [|n IH]; intros d us bs FU FB HU HB;
    [reflexivity|].
  rewrite loops_step_events, loop_events, !radio_out_app, radio_trace_silent.
  rewrite HU, HB, (port_trace_lines "USB" us FU), (port_trace_lines "BT" bs FB).
  cbn [forwarded]. rewrite app_nil_r, <- app_assoc. f_equal. f_equal.
  destruct (loop_inputs d) as (S1 & B1 & _).
  apply IH; auto using Forall_tl.
  - rewrite S1, HU. apply rest_of_lines, FU.
  - rewrite B1, HB. apply rest_of_lines, FB.
Qed.

Lemma lines_forwarded_in_order_witness :
  Forall (fun l => no_newline l = true) ["a"; " "; "b "]
  /\ Forall (fun l => no_newline l = true) ["x"]
  /\ serial_rx chat_node = lines_buf ["a"; " "; "b "]
  /\ bt_rx chat_node = lines_buf ["x"]
  /\ radio_out (events (loops 3) chat_node) = ["a"; "x"; "b"].
Proof.
  split; [repeat constructor|]. split; [repeat constructor|].
  split; [reflexivity|]. split; [reflexivity|].
  apply (lines_forwarded_in_order 3 chat_node ["a"; " "; "b "] ["x"]);
    [repeat constructor | repeat constructor | reflexivity | reflexivity].
Defined.

(** X17.  The tag stays on the node.  [sendLoRaMessage] transmits one
    packet, which holds the first 255 bytes of the message, all of it when
    it is no longer, and nothing else, whatever the tag and whatever an
    earlier packet left in the radio's transmit buffer: the same message
    forwarded from either port puts the same payload on the air, so a
    receiver cannot tell the ports apart. *)
Theorem tag_is_not_transmitted (message tag tag' : string) (d d' : Device) :
  radio_out (events (sendLoRaMessage message tag) d) = [clip message]
  /\ radio_out (events (sendLoRaMessage message tag) d)
     = radio_out (events (sendLoRaMessage message tag') d')
  /\ (if (String.length message <=? MAX_PKT_LENGTH)%nat
      then radio_out (events (sendLoRaMessage message tag) d) = [message]
      else True).
Proof.
  unfold events. rewrite !sendLoRaMessage_run.
  split; [reflexivity|]. split; [reflexivity|].
  destruct (String.length message <=? MAX_PKT_LENGTH)%nat eqn:E; [|exact I].
  apply Nat.leb_le in E.
  change (radio_out (snd (tt, set_txbuf EmptyString d, tx_echo tag message)))
    with [clip message].
  rewrite (clip_short _ E). reflexivity.
Qed.

(* ===================================================================== *)
(** ** Further properties: the lines on the ports *)
(* ===================================================================== *)

Section WireMore.

Lemma no_newline_app (a b : string) :
  no_newline (a ++ b) = no_newline a && no_newline b.
Proof.
  induction a as [|c r IH]; [reflexivity|].
  cbn [String.append no_newline]. rewrite IH. apply andb_assoc.
Qed.

Lemma lines_in_line (cur t r : string) :
  no_newline t = true ->
  lines_in cur (t ++ String newline r)
  = (cur ++ t)%string :: lines_in EmptyString r.
Proof.
  revert cur. induction t as [|c t IH]; intros cur H.
  - cbn. rewrite string_app_empty_r. reflexivity.
  - cbn [no_newline] in H. apply andb_prop in H. destruct H as [Hc Ht].
    apply negb_true_iff in Hc.
    cbn [String.append lines_in]. rewrite Hc, (IH _ Ht), string_app_assoc.
    reflexivity.
Qed.

(** Texts without a newline come out as one line each, with the carriage
    return at its end. *)
Lemma lines_of_texts (texts : list string) :
  Forall (fun t => no_newline t = true) texts ->
  lines_in EmptyString (bytes_of texts)
  = map (fun t => (t ++ String cr EmptyString)%string) texts.
Proof.
  induction 1 as [|t ts Ht _ IH]; [reflexivity|].
  cbn [bytes_of map].
  change (t ++ String cr (String newline (bytes_of ts)))%string
    with (t ++ (String cr EmptyString ++ String newline (bytes_of ts)))%string.
  rewrite <- string_app_assoc, lines_in_line, IH; [reflexivity|].
  rewrite no_newline_app, Ht. reflexivity.
Qed.

Lemma prefix_split (p t : string) :
  String.prefix p t = true -> exists r, t = (p ++ r)%string.
Proof.
  revert t. induction p as [|c p IH]; intros t H.
  - exists t. reflexivity.
  - destruct t as [|c' t]; [discriminate|].
    cbn [String.prefix] in H.
    destruct (ascii_dec c c') as [E|E]; [|discriminate].
    destruct (IH t H) as [r Hr]. exists r. subst. reflexivity.
Qed.

Lemma tagged_with_cr (t : string) :
  tagged t = true ->
  tagged (t ++ String cr EmptyString) = true
  /\ rx_line (t ++ String cr EmptyString) = rx_line t.
Proof.
  unfold tagged. intros H.
  apply orb_prop in H. destruct H as [H|H];
    [apply orb_prop in H; destruct H as [H|H]|];
    apply prefix_split in H; destruct H as [r Hr]; subst t;
    destruct r; split; reflexivity.
Qed.

Lemma port_trace_one_line (port out : Stream) (buf : string) :
  Forall (fun t => no_newline t = true)
         (printed out (port_trace (tag_of port) buf)).
Proof.
  unfold port_trace. destruct buf as [|c r]; [constructor|].
  pose proof (no_newline_rtrim _
                (no_newline_ltrim _ (no_newline_split (String c r)))) as N.
  fold (trim (fst (split_until newline (String c r)))) in N.
  fold (line_of (String c r)) in N.
  destruct (line_of (String c r)) as [|a L]; [constructor|].
  destruct port, out; cbn [tag_of tx_echo both printed app];
    (constructor; [|constructor]);
    rewrite !no_newline_app, N; reflexivity.
Qed.

Lemma radio_trace_one_line (out : Stream) (inbox : list string) :
  Forall (fun P => no_newline P = true) (firstn 1 inbox) ->
  Forall (fun t => no_newline t = true) (printed out (radio_trace inbox)).
Proof.
  intros F. destruct inbox as [|[|c r] q]; try constructor.
  inversion F as [|? ? HP _]; subst.
  destruct out; cbn [radio_trace rx_echo both printed app pulse];
    (constructor; [|constructor]);
    rewrite no_newline_app, HP; reflexivity.
Qed.

Lemma firstn_tl {A} (n : nat) (l : list A) (P : A -> Prop) :
  Forall P (firstn (S n) l) ->
  Forall P (firstn 1 l) /\ Forall P (firstn n (tl l)).
Proof.
  destruct l as [|a l]; cbn [firstn tl].
  - rewrite firstn_nil. split; constructor.
  - intros F. inversion F; subst. split; [repeat constructor|]; assumption.
Qed.

Lemma loops_one_line_each (n : nat) (out : Stream) (d : Device) :
  Forall (fun P => no_newline P = true) (firstn n (lora_inbox d)) ->
  Forall (fun t => no_newline t = true) (printed out (events (loops n) d)).
Proof.
  revert d. induction n as [|n IH]; intros d F; [constructor|].
  apply firstn_tl in F. destruct F as [F1 Fn].
  rewrite loops_step_events, loop_events, !printed_app.
  repeat (apply Forall_app; split).
  - apply (port_trace_one_line Serial).
  - apply (port_trace_one_line SerialBT).
  - apply radio_trace_one_line, F1.
  - apply IH. destruct (loop_inputs d) as (_ & _ & I). rewrite I. exact Fn.
Qed.

Lemma filter_rx_with_cr (texts : list string) :
  Forall (fun t => tagged t = true) texts ->
  filter rx_line (map (fun t => (t ++ String cr EmptyString)%string) texts)
  = map (fun t => (t ++ String cr EmptyString)%string) (filter rx_line texts).
Proof.
  induction 1 as [|t ts Ht _ IH]; [reflexivity|].
  cbn [map filter]. destruct (tagged_with_cr t Ht) as [_ E].
  rewrite E, IH. destruct (rx_line t); reflexivity.
Qed.

End WireMore.

(** X11.  When the packets received hold no newline, every line that
    iterations put on a port, on either output, starts with '[TX USB] ',
    '[TX BT] ' or '[RX] '.  A line is what an observer of the port reads
    between two newlines. *)
Theorem printed_lines_are_tagged (n : nat) (out : Stream) (d : Device) :
  Forall (fun P => no_newline P = true) (firstn n (lora_inbox d)) ->
  Forall (fun l => tagged l = true) (port_lines out (events (loops n) d)).
Proof.
  intros F. unfold port_lines, wire.
  rewrite (lines_of_texts _ (loops_one_line_each n out d F)).
  apply Forall_map.
  eapply Forall_impl; [|apply (texts_are_tagged n out d)].
  intros t Ht. apply (tagged_with_cr t Ht).
Qed.

Lemma printed_lines_are_tagged_witness :
  Forall (fun P => no_newline P = true) (firstn 3 (lora_inbox chat_node))
  /\ port_lines Serial (events (loops 3) chat_node)
     = [("[TX USB] a" ++ String cr "")%string;
        ("[TX BT] x" ++ String cr "")%string;
        ("[RX] p" ++ String cr "")%string;
        ("[TX USB] b" ++ String cr "")%string;
        ("[RX] q" ++ String cr "")%string]
  /\ Forall (fun l => tagged l = true)
            (port_lines Serial (events (loops 3) chat_node)).
Proof.
  split; [repeat constructor|]. split; [reflexivity|].
  apply (printed_lines_are_tagged 3 Serial chat_node). repeat constructor.
Defined.

(** X12.  When the packets received hold no newline, they are reported in
    the order they arrived, one line per packet: the lines starting with
    '[RX] ' that [n] iterations put on a port, on either output, are
    those of the first [n] packets that carry a payload, in order,
    whatever is typed on the ports meanwhile. *)
Theorem packets_reported_in_order (n : nat) (out : Stream) (d : Device) :
  Forall (fun P => no_newline P = true) (firstn n (lora_inbox d)) ->
  filter rx_line (port_lines out (events (loops n) d))
  = map (fun P => ("[RX] " ++ P ++ String cr EmptyString)%string)
        (heard n (lora_inbox d)).
Proof.
  intros F. unfold port_lines, wire.
  rewrite (lines_of_texts _ (loops_one_line_each n out d F)).
  rewrite (filter_rx_with_cr _ (texts_are_tagged n out d)).
  rewrite rx_texts_in_order, map_map.
  apply map_ext. intros P. apply string_app_assoc.
Qed.

Lemma packets_reported_in_order_witness :
  Forall (fun P => no_newline P = true) (firstn 3 (lora_inbox chat_node))
  /\ filter rx_line (port_lines SerialBT (events (loops 3) chat_node))
     = [("[RX] p" ++ String cr "")%string; ("[RX] q" ++ String cr "")%string].
Proof.
  split; [repeat constructor|].
  apply (packets_reported_in_order 3 SerialBT chat_node). repeat constructor.
Defined.

(** X18.  A received payload is printed as it is: when it holds a newline,
    what follows the newline shows on the port as a line of its own,
    which need not carry a tag, or may carry the tag of a packet that
    never came. *)
Theorem payload_newline_splits_line (d : Device) (a b : string) (q : list string) :
  no_newline a = true ->
  no_newline b = true ->
  serial_rx d = EmptyString ->
  bt_rx d = EmptyString ->
  lora_inbox d = (a ++ String newline b)%string :: q ->
  port_lines Serial (events loop d)
  = [("[RX] " ++ a)%string; (b ++ String cr EmptyString)%string]
  /\ port_lines SerialBT (events loop d)
     = [("[RX] " ++ a)%string; (b ++ String cr EmptyString)%string].
Proof.
  intros Ha Hb HS HB HI.
  assert (P : forall out,
             printed out (events loop d)
             = [("[RX] " ++ a ++ String newline b)%string]).
  { intros out. rewrite loop_events, HS, HB, HI.
    destruct a; destruct out; reflexivity. }
  assert (L : lines_in EmptyString
                (bytes_of [("[RX] " ++ a ++ String newline b)%string])
              = [("[RX] " ++ a)%string; (b ++ String cr EmptyString)%string]).
  { cbn [bytes_of].
    replace (("[RX] " ++ a ++ String newline b)
             ++ String cr (String newline ""))%string
      with (("[RX] " ++ a)
            ++ String newline ((b ++ String cr "")
                               ++ String newline ""))%string.
    - rewrite lines_in_line, lines_in_line; [reflexivity| |].
      + rewrite no_newline_app, Hb. reflexivity.
      + rewrite no_newline_app, Ha. reflexivity.
    - rewrite !string_app_assoc. reflexivity. }
  unfold port_lines, wire. rewrite !P. split; exact L.
Qed.

Lemma payload_newline_splits_line_witness :
  no_newline "x" = true
  /\ no_newline "[RX] y" = true
  /\ serial_rx spoofed_node = EmptyString
  /\ bt_rx spoofed_node = EmptyString
  /\ lora_inbox spoofed_node = [("x" ++ String newline "[RX] y")%string]
  /\ port_lines Serial (events loop spoofed_node)
     = ["[RX] x"; ("[RX] y" ++ String cr "")%string]
  /\ port_lines SerialBT (events loop spoofed_node)
     = ["[RX] x"; ("[RX] y" ++ String cr "")%string].
Proof.
  split; [reflexivity|]. split; [reflexivity|]. split; [reflexivity|].
  split; [reflexivity|]. split; [reflexivity|].
  apply (payload_newline_splits_line spoofed_node "x" "[RX] y" []);
    reflexivity.
Defined.
